(** * Flask-Practice: the inventory tracker of [app.py]

    A shallow embedding of the one source file of the repository: the four
    SQLAlchemy models, the seed initializer [init_db] and the seven Flask
    routes, followed by the properties the specification states about them.

    Layout
    - Python values, exceptions and the state-and-exception monad the routes
      run in;
    - the models ([User], [Location], [Stock], [Note]) and the store: one
      table per model, the constraints the column declarations carry, and
      the unit of work of a SQLAlchemy session ([commit]);
    - [init_db] and the routes, written in the order of the source;
    - the theorems. *)

From Stdlib Require Import ZArith Ascii.
From stdpp Require Import gmap strings list sorting.

Local Open Scope Z_scope.

(** ** Python values and exceptions *)

(** Values a Flask session dictionary holds in this program. *)
Inductive pyval :=
| PyNone
| PyBool (b : bool)
| PyInt (n : Z)
| PyStr (s : string).

(** Python truthiness, for [not session.get(k)] and [not content]. The
    argument is the result of a [dict.get]: [None] when the key is absent. *)
Definition truthy (v : option pyval) : bool :=
  match v with
  | None | Some PyNone => false
  | Some (PyBool b) => b
  | Some (PyInt n) => negb (n =? 0)
  | Some (PyStr s) => negb (String.eqb s "")
  end.

(** A value bound to the [Integer] column [Stock.location_id]: [init_db]
    binds the [int] id of a location, [add_stock] the [str] of the form. *)
Inductive colval :=
| Integer (n : Z)
| Text (s : string).

(** The exceptions the source can meet: [request.form[k]] on a missing key
    (werkzeug's [BadRequestKeyError]) and SQLAlchemy's [IntegrityError]. *)
Inductive exn :=
| BadRequestKeyError (key : string)
| IntegrityError.

Inductive result (A : Type) :=
| Ok (a : A)
| Raise (e : exn).
Arguments Ok {A} a.
Arguments Raise {A} e.

(** ** Models *)

(** Each class maps to a record of its columns but [id]: the primary key is
    given by the store on insert, and a table pairs it with the row. Columns
    declared [nullable=False] are plain strings, as every object the source
    builds has a [str] there; the others may be [None]. The lengths of
    [String(n)] are not checked by SQLite and do not appear. *)

Module User.
Record t := mk { username : string; password_hash : string }.
End User.

Module Location.
Record t := mk { office : option string; zone : option string; bay : option string }.
End Location.

Module Stock.
Record t := mk {
  serial : string;
  mfg : option string;
  dimen : option string;
  type : option string;
  modifier : option string;
  location_id : option colval
}.
End Stock.

Module Note.
Record t := mk { content : string; timestamp : option string }.
End Note.

(** ** The store *)

(** A table lists its rows in rowid order, each with its primary key. *)
Abbreviation table A := (list (Z * A)).

Record store := Store {
  users : table User.t;
  locations : table Location.t;
  stock : table Stock.t;
  notes : table Note.t
}.

Definition empty_store : store := Store [] [] [] [].

(** An object handed to [db.add]. *)
Inductive entity :=
| EUser (u : User.t)
| ELocation (l : Location.t)
| EStock (s : Stock.t)
| ENote (n : Note.t).

(** [create_engine('sqlite:///sqlalchemy_users.db')]: the source sets nothing
    on the connections it opens, so SQLite's [PRAGMA foreign_keys] keeps its
    default, off, and [ForeignKey('locations.id')] is declared but not
    enforced. *)
Record engine := Engine { foreign_keys : bool }.

Definition ENGINE : engine := Engine false.

(** The id an [INTEGER PRIMARY KEY] column gets on insert: one more than the
    largest in the table, 1 in an empty table. (Ids are unbounded here;
    SQLite's are 64-bit, a limit no run of this program comes near.) *)
Definition next_id {A} (t : table A) : Z :=
  match t.*1 with
  | [] => 1
  | i :: ids => 1 + foldr Z.max i ids
  end.

(** Decimal integer literals: what SQLite's INTEGER affinity turns into an
    integer when a text is stored in [location_id]. (SQLite also converts
    texts padded with blanks and reals with an integral value; this model
    keeps those as text.) *)
Definition digit (c : ascii) : option Z :=
  let n := Z.of_N (N_of_ascii c) in
  if (48 <=? n) && (n <=? 57) then Some (n - 48) else None.

Fixpoint digits (acc : Z) (s : string) : option Z :=
  match s with
  | EmptyString => Some acc
  | String c r => match digit c with Some d => digits (10 * acc + d) r | None => None end
  end.

Definition integer_literal (s : string) : option Z :=
  match s with
  | EmptyString => None
  | String "-" (String _ _ as r) => Z.opp <$> digits 0 r
  | String "+" (String _ _ as r) => digits 0 r
  | _ => digits 0 s
  end.

Definition rowid_of (v : colval) : option Z :=
  match v with
  | Integer n => Some n
  | Text s => integer_literal s
  end.

(** The location a [location_id] refers to, if any: the join of
    [joinedload(Stock.location)]. *)
Definition location_of (st : store) (v : colval) : option (Z * Location.t) :=
  match rowid_of v with
  | Some i => head (filter (λ l : Z * Location.t, l.1 = i) (locations st))
  | None => None
  end.

(** [dangling st s]: the row has a [location_id] and no location has it. *)
Definition dangling (st : store) (s : Stock.t) : bool :=
  match Stock.location_id s with
  | Some v => match location_of st v with Some _ => false | None => true end
  | None => false
  end.

(** One INSERT. The constraints are those of the column declarations:
    [unique=True] on [User.username] and, when the engine enforces foreign
    keys, the reference of [Stock.location_id]. [Stock.serial] is declared
    [nullable=False] only. *)
Definition insert (e : engine) (x : entity) (st : store) : result (Z * store) :=
  match x with
  | EUser u =>
      if decide (User.username u ∈ (λ r : Z * User.t, User.username r.2) <$> users st)
      then Raise IntegrityError
      else let i := next_id (users st) in
           Ok (i, Store (users st ++ [(i, u)]) (locations st) (stock st) (notes st))
  | ELocation l =>
      let i := next_id (locations st) in
      Ok (i, Store (users st) (locations st ++ [(i, l)]) (stock st) (notes st))
  | EStock s =>
      if foreign_keys e && dangling st s
      then Raise IntegrityError
      else let i := next_id (stock st) in
           Ok (i, Store (users st) (locations st) (stock st ++ [(i, s)]) (notes st))
  | ENote n =>
      let i := next_id (notes st) in
      Ok (i, Store (users st) (locations st) (stock st) (notes st ++ [(i, n)]))
  end.

(** The flush of a session: its pending objects are inserted in the order
    they were added; the first failure aborts the whole transaction. The
    result lists the ids given. *)
Fixpoint flush (e : engine) (pending : list entity) (st : store) : result (list Z * store) :=
  match pending with
  | [] => Ok ([], st)
  | x :: rest =>
      match insert e x st with
      | Raise err => Raise err
      | Ok (i, st') =>
          match flush e rest st' with
          | Raise err => Raise err
          | Ok (ids, st'') => Ok (i :: ids, st'')
          end
      end
  end.

(** [ORDER BY id DESC]. *)
Fixpoint insert_desc {A} (x : Z * A) (l : table A) : table A :=
  match l with
  | [] => [x]
  | y :: l' => if y.1 <? x.1 then x :: l else y :: insert_desc x l'
  end.

Definition order_by_id_desc {A} (l : table A) : table A := foldr insert_desc [] l.

(** ** The world a request runs in *)

(** What the program does with the store, in order. *)
Inductive db_event :=
| Query (tablename : string)
| Commit (pending : list entity)
| Rollback.

Record world := World {
  db : store;
  session : gmap string pyval;
  db_log : list db_event
}.

(** A computation may change the world and either returns or raises. *)
Definition M (A : Type) : Type := world → result A * world.

#[global] Instance M_ret : MRet M := λ A a w, (Ok a, w).

#[global] Instance M_bind : MBind M := λ A B f m w,
  match m w with
  | (Ok a, w') => f a w'
  | (Raise e, w') => (Raise e, w')
  end.

#[global] Instance M_fmap : FMap M := λ A B f m, a ← m; mret (f a).

Definition raise {A} (e : exn) : M A := λ w, (Raise e, w).

(** [try: body except Exception as e: handler e]. *)
Definition try_except {A} (body : M A) (handler : exn → M A) : M A := λ w,
  match body w with
  | (Raise e, w') => handler e w'
  | r => r
  end.

(** [except IntegrityError: handler]: any other exception goes on. *)
Definition except_IntegrityError {A} (body : M A) (handler : M A) : M A :=
  try_except body (λ e, match e with IntegrityError => handler | _ => raise e end).

Definition log (ev : db_event) : M () := λ w,
  (Ok (), World (db w) (session w) (db_log w ++ [ev])).

(** [db.query(Model).all()] *)
Definition query_all {A} (tablename : string) (tbl : store → table A) : M (table A) := λ w,
  (Ok (tbl (db w)), World (db w) (session w) (db_log w ++ [Query tablename])).

(** [db.query(Model).filter(P).first()] *)
Definition query_first {A} (tablename : string) (tbl : store → table A)
    (P : Z * A → Prop) `{∀ r, Decision (P r)} : M (option (Z * A)) :=
  rows ← query_all tablename tbl; mret (head (filter P rows)).

(** [db.commit()] on a session holding [pending]: all of it is written, or
    [IntegrityError] is raised and nothing is. *)
Definition commit (pending : list entity) : M (list Z) := λ w,
  let events := db_log w ++ [Commit pending] in
  match flush ENGINE pending (db w) with
  | Ok (ids, st') => (Ok ids, World st' (session w) events)
  | Raise e => (Raise e, World (db w) (session w) events)
  end.

(** [db.add(x); db.commit()] on a session holding nothing else; returns
    [x.id] as read after the commit. *)
Definition add_commit (x : entity) : M Z :=
  ids ← commit [x]; mret (default 0 (head ids)).

(** [db.rollback()] *)
Definition rollback : M () := log Rollback.

(** [session.get(k)], [session[k] = v], [session.clear()] *)
Definition session_get (k : string) : M (option pyval) := λ w, (Ok (session w !! k), w).

Definition session_set (k : string) (v : pyval) : M () := λ w,
  (Ok (), World (db w) (<[k:=v]> (session w)) (db_log w)).

Definition session_clear : M () := λ w, (Ok (), World (db w) ∅ (db_log w)).

(** ** Requests and responses *)

(** What a route reads of the request: the first value of each form field,
    and the text [datetime.now().strftime("%Y-%m-%d %H:%M:%S")] gives while
    the request is served. *)
Record request := Request {
  form : gmap string string;
  now : string
}.

(** [request.form[k]] *)
Definition form_getitem (req : request) (k : string) : M string :=
  match form req !! k with
  | Some v => mret v
  | None => raise (BadRequestKeyError k)
  end.

(** [request.form.get(k)] *)
Definition form_get (req : request) (k : string) : option string := form req !! k.

(** A keyword argument of [render_template]. *)
Inductive template_arg :=
| Users (rows : table User.t)
| StockItems (rows : list (Z * Stock.t * option (Z * Location.t)))
| Locations (rows : table Location.t)
| Notes (rows : table Note.t)
| Message (s : string).

Inductive response :=
| redirect (location : string)
| render_template (name : string) (context : list (string * template_arg)).

(** The rules of [@app.route]: endpoint (the function's name) and URL. *)
Definition url_map : list (string * string) :=
  [("add_stock", "/add_stock"); ("index", "/"); ("login", "/login");
   ("logout", "/logout"); ("show_image", "/show_image");
   ("view_notes", "/notes"); ("add_note", "/add_note")].

Definition url_for (endpoint : string) : string :=
  default "" ((list_to_map url_map : gmap string string) !! endpoint).

(** [db.query(Stock).options(joinedload(Stock.location)).all()] *)
Definition query_stock_joinedload : M (list (Z * Stock.t * option (Z * Location.t))) := λ w,
  (Ok ((λ s : Z * Stock.t, (s, Stock.location_id s.2 ≫= location_of (db w))) <$> stock (db w)),
   World (db w) (session w) (db_log w ++ [Query "stock"])).

(** ** The program *)

Section App.

(** werkzeug's [generate_password_hash] and [check_password_hash], taken as
    given. The first draws a salt, passed here as an argument. *)
Variable generate_password_hash : string → string → string.
Variable check_password_hash : string → string → bool.

(** [init_db()], run once when the module is loaded. *)
Definition init_db (salt : string) : M () :=
  default_location ← query_first "locations" locations
                        (λ l, Location.office l.2 = Some "TPA");
  default_location ←
    match default_location with
    | Some l => mret l
    | None =>
        let l := Location.mk (Some "TPA") (Some "GAR") (Some "A") in
        i ← add_commit (ELocation l); mret (i, l)
    end;
  new_location ← query_first "locations" locations
                    (λ l, Location.office l.2 = Some "CLW");
  new_location ←
    match new_location with
    | Some l => mret l
    | None =>
        let l := Location.mk (Some "CLW") (Some "CON") (Some "B") in
        i ← add_commit (ELocation l); mret (i, l)
    end;
  let hashed := generate_password_hash salt "a" in
  existing_user ← query_first "users" users (λ u, User.username u.2 = "max");
  let pending :=
    match existing_user with
    | Some _ => []
    | None => [EUser (User.mk "max" hashed)]
    end in
  stock_1137 ← query_first "stock" stock (λ s, Stock.serial s.2 = "1137");
  let pending :=
    match stock_1137 with
    | Some _ => pending
    | None => pending ++ [EStock (Stock.mk "1137" (Some "sbp") (Some "25x50") (Some "win")
                                    (Some "1") (Some (Integer default_location.1)))]
    end in
  stock_1138 ← query_first "stock" stock (λ s, Stock.serial s.2 = "1138");
  let pending :=
    match stock_1138 with
    | Some _ => pending
    | None => pending ++ [EStock (Stock.mk "1138" (Some "pgt") (Some "10x10") (Some "win")
                                    (Some "1") (Some (Integer new_location.1)))]
    end in
  except_IntegrityError (commit pending;; mret ()) rollback.

(** [POST /add_stock] *)
Definition add_stock (req : request) : M response :=
  logged_in ← session_get "logged_in";
  if negb (truthy logged_in) then mret (redirect (url_for "index")) else
  new_item ←
    try_except
      (serial ← form_getitem req "serial";
       mret (Some (Stock.mk serial (form_get req "mfg") (form_get req "dimen")
                     (form_get req "type") (form_get req "modifier")
                     (Text <$> form_get req "location_id"))))
      (λ _, mret None);
  match new_item with
  | None => mret (redirect (url_for "index"))
  | Some new_item =>
      except_IntegrityError (commit [EStock new_item];; mret ()) rollback;;
      mret (redirect (url_for "index"))
  end.

(** [GET /] *)
Definition index : M response :=
  logged_in ← session_get "logged_in";
  if truthy logged_in then
    all_users ← query_all "users" users;
    all_stock ← query_stock_joinedload;
    all_locations ← query_all "locations" locations;
    mret (render_template "index.html"
            [("users", Users all_users); ("stock", StockItems all_stock);
             ("locations", Locations all_locations)])
  else mret (render_template "login.html" []).

(** [POST /login] *)
Definition login (req : request) : M response :=
  username ← form_getitem req "username";
  password ← form_getitem req "password";
  user ← query_first "users" users (λ u, User.username u.2 = username);
  let verified :=
    match user with
    | Some u => check_password_hash (User.password_hash u.2) password
    | None => false
    end in
  if verified then
    session_set "logged_in" (PyBool true);;
    session_set "username" (PyStr (from_option (λ u : Z * User.t, User.username u.2) "" user));;
    mret (redirect (url_for "index"))
  else mret (render_template "login.html" [("error", Message "Invalid credentials")]).

(** [GET /logout] *)
Definition logout : M response :=
  session_clear;; mret (redirect (url_for "index")).

(** [GET /show_image] *)
Definition show_image : M response :=
  mret (render_template "image.html" []).

(** [GET /notes] *)
Definition view_notes : M response :=
  logged_in ← session_get "logged_in";
  if negb (truthy logged_in) then mret (redirect (url_for "index")) else
  all_notes ← order_by_id_desc <$> query_all "notes" notes;
  mret (render_template "notes.html" [("notes", Notes all_notes)]).

(** [POST /add_note] *)
Definition add_note (req : request) : M response :=
  logged_in ← session_get "logged_in";
  if negb (truthy logged_in) then mret (redirect (url_for "index")) else
  let content := form_get req "note_content" in
  if negb (truthy (PyStr <$> content)) then mret (redirect (url_for "view_notes")) else
  let current_time := now req in
  let new_note := Note.mk (default "" content) (Some current_time) in
  try_except (commit [ENote new_note];; mret ()) (λ _, rollback);;
  mret (redirect (url_for "view_notes")).

End App.

(** ** Running the program *)

(** A process start: the module is loaded and [init_db] runs. *)
Definition restart (generate_password_hash : string → string → string)
    (salt : string) (w : world) : world :=
  (init_db generate_password_hash salt w).2.

(** One process start per salt drawn. *)
Definition restarts (generate_password_hash : string → string → string)
    (salts : list string) (w : world) : world :=
  foldl (λ w salt, restart generate_password_hash salt w) w salts.

(** The two states of the session gate, as the routes test them. *)
Definition anonymous (s : gmap string pyval) : Prop :=
  truthy (s !! "logged_in") = false.

Definition authenticated (s : gmap string pyval) (username : string) : Prop :=
  truthy (s !! "logged_in") = true ∧ s !! "username" = Some (PyStr username).

(** Rows per natural key. *)
Definition count_office (office : string) (st : store) : nat :=
  length (filter (λ l : Z * Location.t, Location.office l.2 = Some office) (locations st)).

Definition count_username (username : string) (st : store) : nat :=
  length (filter (λ u : Z * User.t, User.username u.2 = username) (users st)).

Definition count_serial (serial : string) (st : store) : nat :=
  length (filter (λ s : Z * Stock.t, Stock.serial s.2 = serial) (stock st)).

(** How many rows the store holds of each record [init_db] seeds. *)
Definition reference_counts (st : store) : list nat :=
  [count_office "TPA" st; count_office "CLW" st; count_username "max" st;
   count_serial "1137" st; count_serial "1138" st].

(** Every stock row with a [location_id] refers to a location. *)
Definition referential_integrity (st : store) : Prop :=
  Forall (λ s : Z * Stock.t, dangling st s.2 = false) (stock st).

(** A hashing scheme to run examples with: the salt, a dollar sign and the
    password in clear. *)
Definition clear_hash (salt password : string) : string := salt +:+ "$" +:+ password.

Fixpoint after_dollar (s : string) : string :=
  match s with
  | EmptyString => EmptyString
  | String c r => if Ascii.eqb c "$" then r else after_dollar r
  end.

Definition clear_check (pwhash password : string) : bool :=
  String.eqb (after_dollar pwhash) password.

(** A fresh database file, seeded at the first start. *)
Definition fresh : world := World empty_store ∅ [].

Definition seeded : store := db (restart clear_hash "salt" fresh).

(** A session after a successful login of max. *)
Definition session_max : gmap string pyval :=
  <["username" := PyStr "max"]> {["logged_in" := PyBool true]}.

(** ** Vocabulary of the properties *)

(** The row [add_stock] builds from a form that has a serial. *)
Definition new_item (req : request) (serial : string) : Stock.t :=
  Stock.mk serial (form_get req "mfg") (form_get req "dimen") (form_get req "type")
    (form_get req "modifier") (Text <$> form_get req "location_id").

(** The row [add_note] builds. *)
Definition new_note (req : request) (content : string) : Note.t :=
  Note.mk content (Some (now req)).

(** The form of a login attempt. *)
Definition credentials (username password : string) : request :=
  Request {["username" := username; "password" := password]} "".

Definition invalid_credentials : response :=
  render_template "login.html" [("error", Message "Invalid credentials")].

(** The first user of that name, as [login] looks it up. *)
Definition user_named (username : string) (st : store) : option (Z * User.t) :=
  head (filter (λ u : Z * User.t, User.username u.2 = username) (users st)).

(** Rows of decreasing id. *)
Definition id_desc {A} (r1 r2 : Z * A) : Prop := r2.1 ≤ r1.1.

Section Lookup.

Context {A : Type} (P : Z * A → Prop) `{!∀ r, Decision (P r)}.

(** Look a row up and insert it when the lookup finds none: the step
    [init_db] takes for each record. *)
Definition ensure (x : A) (t : table A) : table A :=
  match head (filter P t) with
  | Some _ => t
  | None => t ++ [(next_id t, x)]
  end.

(** The id of the first row found. *)
Definition first_id (t : table A) : Z := from_option fst 0 (head (filter P t)).

End Lookup.

(** The records of [init_db] and the keys it looks them up by. *)
Abbreviation by_office office :=
  (λ l : Z * Location.t, Location.office l.2 = Some office).

Abbreviation by_username username :=
  (λ u : Z * User.t, User.username u.2 = username).

Abbreviation by_serial serial :=
  (λ s : Z * Stock.t, Stock.serial s.2 = serial).

Definition TPA_GAR_A : Location.t := Location.mk (Some "TPA") (Some "GAR") (Some "A").

Definition CLW_CON_B : Location.t := Location.mk (Some "CLW") (Some "CON") (Some "B").

Definition stock_1137 (location_id : Z) : Stock.t :=
  Stock.mk "1137" (Some "sbp") (Some "25x50") (Some "win") (Some "1")
    (Some (Integer location_id)).

Definition stock_1138 (location_id : Z) : Stock.t :=
  Stock.mk "1138" (Some "pgt") (Some "10x10") (Some "win") (Some "1")
    (Some (Integer location_id)).

(** What one run of [init_db] makes of a store, said table by table;
    [init_db_runs] below proves that it is. *)
Definition seed_store (hashed : string) (st : store) : store :=
  let locs := ensure (by_office "CLW") CLW_CON_B
                (ensure (by_office "TPA") TPA_GAR_A (locations st)) in
  Store (ensure (by_username "max") (User.mk "max" hashed) (users st))
    locs
    (ensure (by_serial "1138") (stock_1138 (first_id (by_office "CLW") locs))
       (ensure (by_serial "1137") (stock_1137 (first_id (by_office "TPA") locs))
          (stock st)))
    (notes st).

(** The second half of [init_db], from the lookup of the user on, under a
    name of its own: [tpa] and [clw] are [default_location.id] and
    [new_location.id]. *)
Definition seed_rows (hashed : string) (tpa clw : Z) : M () :=
  existing_user ← query_first "users" users (λ u, User.username u.2 = "max");
  let pending :=
    match existing_user with
    | Some _ => []
    | None => [EUser (User.mk "max" hashed)]
    end in
  stock_1137 ← query_first "stock" stock (λ s, Stock.serial s.2 = "1137");
  let pending :=
    match stock_1137 with
    | Some _ => pending
    | None => pending ++ [EStock (Stock.mk "1137" (Some "sbp") (Some "25x50") (Some "win")
                                    (Some "1") (Some (Integer tpa)))]
    end in
  stock_1138 ← query_first "stock" stock (λ s, Stock.serial s.2 = "1138");
  let pending :=
    match stock_1138 with
    | Some _ => pending
    | None => pending ++ [EStock (Stock.mk "1138" (Some "pgt") (Some "10x10") (Some "win")
                                    (Some "1") (Some (Integer clw)))]
    end in
  except_IntegrityError (commit pending;; mret ()) rollback.

(** [returns m w a st]: run in [w], [m] returns [a] and leaves the store
    [st] and the session of [w]. *)
Definition returns {A} (m : M A) (w : world) (a : A) (st : store) : Prop :=
  ∃ events, m w = (Ok a, World st (session w) events).

(** A store with two stock rows of serial 1137: seed a fresh database, log
    in, submit [add_stock] with that serial. *)
Definition twice_1137 : store :=
  db (add_stock (Request {["serial" := "1137"]} "2025-01-01 10:00:00")
        (World seeded session_max [])).2.

(** ** Operations and invariants *)

(** What can happen to the world: a process start or a request to one of
    the routes. *)
Inductive operation :=
| op_init_db (salt : string)
| op_add_stock (req : request)
| op_index
| op_login (req : request)
| op_logout
| op_show_image
| op_view_notes
| op_add_note (req : request).

Section Operations.

Variable generate_password_hash : string → string → string.
Variable check_password_hash : string → string → bool.

(** The world an operation leaves, whether it returned or raised. *)
Definition run_op (o : operation) (w : world) : world :=
  match o with
  | op_init_db salt => (init_db generate_password_hash salt w).2
  | op_add_stock req => (add_stock req w).2
  | op_index => (index w).2
  | op_login req => (login check_password_hash req w).2
  | op_logout => (logout w).2
  | op_show_image => (show_image w).2
  | op_view_notes => (view_notes w).2
  | op_add_note req => (add_note req w).2
  end.

Definition run_ops (ops : list operation) (w : world) : world :=
  foldl (λ w o, run_op o w) w ops.

End Operations.

(** Every table of [st'] starts with the rows of [st], in place. *)
Definition store_extends (st st' : store) : Prop :=
  users st `prefix_of` users st'
  ∧ locations st `prefix_of` locations st'
  ∧ stock st `prefix_of` stock st'
  ∧ notes st `prefix_of` notes st'.

(** No id twice in a table. *)
Definition keys_unique (st : store) : Prop :=
  NoDup (users st).*1 ∧ NoDup (locations st).*1
  ∧ NoDup (stock st).*1 ∧ NoDup (notes st).*1.

(** No username twice: [unique=True] on [User.username]. *)
Definition usernames_unique (st : store) : Prop :=
  NoDup ((λ r : Z * User.t, User.username r.2) <$> users st).

(** The three records [init_db] looks up in the tables no route writes. *)
Definition seeded_keys (st : store) : Prop :=
  is_Some (head (filter (by_office "TPA") (locations st)))
  ∧ is_Some (head (filter (by_office "CLW") (locations st)))
  ∧ is_Some (head (filter (by_username "max") (users st))).

(** The rows [index] shows for the stock table. *)
Definition joined (st : store) : list (Z * Stock.t * option (Z * Location.t)) :=
  (λ s : Z * Stock.t, (s, Stock.location_id s.2 ≫= location_of st)) <$> stock st.

(** The field [login] misses in a form, if any, in the order it reads them. *)
Definition missing_field (req : request) : option string :=
  match form req !! "username", form req !! "password" with
  | None, _ => Some "username"
  | Some _, None => Some "password"
  | Some _, Some _ => None
  end.

(** * Properties *)

Lemma url_for_index : url_for "index" = "/".
Proof. reflexivity. Qed.

Lemma url_for_view_notes : url_for "view_notes" = "/notes".
Proof. reflexivity. Qed.

(** Unfolds a route down to the primitives of the monad. *)
Ltac run :=
  cbv [add_stock index login logout show_image view_notes add_note
       session_get session_set session_clear form_getitem form_get
       query_first query_all query_stock_joinedload commit add_commit rollback log
       try_except except_IntegrityError raise
       mbind M_bind mret M_ret fmap M_fmap];
  rewrite ?url_for_index, ?url_for_view_notes.

(** ** The session gate *)

Lemma add_stock_anonymous req w :
  anonymous (session w) → add_stock req w = (Ok (redirect "/"), w).
Proof. intros Hanon. run. rewrite Hanon. reflexivity. Qed.

Lemma index_anonymous w :
  anonymous (session w) → index w = (Ok (render_template "login.html" []), w).
Proof. intros Hanon. run. rewrite Hanon. reflexivity. Qed.

Lemma view_notes_anonymous w :
  anonymous (session w) → view_notes w = (Ok (redirect "/"), w).
Proof. intros Hanon. run. rewrite Hanon. reflexivity. Qed.

Lemma add_note_anonymous req w :
  anonymous (session w) → add_note req w = (Ok (redirect "/"), w).
Proof. intros Hanon. run. rewrite Hanon. reflexivity. Qed.

(** C4. While the session is anonymous, [add_stock], [index], [add_note]
    and [view_notes] leave the world as it is, the store, the session and
    the list of store operations alike, whatever the request holds. Three of
    them answer with a redirect to [/], and [index] renders [login.html]
    with no argument: no row of the store is in any of the results. *)
Theorem anonymous_gate (req : request) (w : world) :
  anonymous (session w) →
  add_stock req w = (Ok (redirect "/"), w)
  ∧ index w = (Ok (render_template "login.html" []), w)
  ∧ add_note req w = (Ok (redirect "/"), w)
  ∧ view_notes w = (Ok (redirect "/"), w).
Proof.
  intros Hanon.
  rewrite add_stock_anonymous, index_anonymous, add_note_anonymous, view_notes_anonymous
    by exact Hanon.
  auto.
Qed.

Lemma anonymous_gate_witness :
  let req := Request {["serial" := "1137"; "note_content" := "hello"]} "2025-01-01 10:00:00" in
  let w := World seeded ∅ [] in
  add_stock req w = (Ok (redirect "/"), w)
  ∧ index w = (Ok (render_template "login.html" []), w)
  ∧ add_note req w = (Ok (redirect "/"), w)
  ∧ view_notes w = (Ok (redirect "/"), w).
Proof. intros req w. apply (anonymous_gate req w). reflexivity. Defined.

(** ** [add_stock] *)

(** With a session that is logged in and a form that has a serial, the row
    is appended to the stock table, whatever the table and the other tables
    hold: the commit cannot fail. *)
Lemma add_stock_authenticated req w serial :
  truthy (session w !! "logged_in") = true →
  form req !! "serial" = Some serial →
  add_stock req w =
    (Ok (redirect "/"),
     World (Store (users (db w)) (locations (db w))
              (stock (db w) ++ [(next_id (stock (db w)), new_item req serial)])
              (notes (db w)))
       (session w) (db_log w ++ [Commit [EStock (new_item req serial)]])).
Proof.
  intros Hin Hserial. run. rewrite Hin, Hserial. reflexivity.
Qed.

(** C9. A logged-in [add_stock] whose form has no [serial] stops at
    [request.form['serial']]: the exception is caught, the answer is the
    redirect to [/], and the world is the one before, with no operation on
    the store recorded and no row inserted. *)
Theorem add_stock_missing_serial (req : request) (w : world) :
  truthy (session w !! "logged_in") = true →
  form req !! "serial" = None →
  add_stock req w = (Ok (redirect "/"), w).
Proof.
  intros Hin Hserial. run. rewrite Hin, Hserial. reflexivity.
Qed.

Lemma add_stock_missing_serial_witness :
  let req := Request {["mfg" := "sbp"; "location_id" := "1"]} "2025-01-01 10:00:00" in
  let w := World seeded session_max [] in
  add_stock req w = (Ok (redirect "/"), w).
Proof. intros req w. apply (add_stock_missing_serial req w); reflexivity. Defined.

(** C1, at a failing input. The seeded store has one row of serial 1137; a
    logged-in [add_stock] with that serial answers with the redirect and
    the store then has two: nothing in the declaration of [Stock.serial]
    makes the commit fail. *)
Theorem add_stock_duplicate_serial :
  let req := Request {["serial" := "1137"]} "2025-01-01 10:00:00" in
  let w := World seeded session_max [] in
  count_serial "1137" (db w) = 1%nat
  ∧ (add_stock req w).1 = Ok (redirect "/")
  ∧ count_serial "1137" (db (add_stock req w).2) = 2%nat.
Proof. vm_compute. auto. Qed.

(** The same for every store and every serial: one more row each time. *)
Lemma add_stock_count_serial req w serial :
  truthy (session w !! "logged_in") = true →
  form req !! "serial" = Some serial →
  count_serial serial (db (add_stock req w).2) = S (count_serial serial (db w)).
Proof.
  intros Hin Hserial. rewrite (add_stock_authenticated req w serial Hin Hserial).
  unfold count_serial. simpl. rewrite filter_app, length_app.
  rewrite filter_cons_True by reflexivity. simpl. lia.
Qed.

(** C2, at a failing input. In the seeded store every stock row refers to
    a location. A logged-in [add_stock] with [location_id] 999, the id of no
    location, answers with the redirect and the row is in the store. *)
Theorem add_stock_dangling_location :
  let req := Request {["serial" := "9999"; "location_id" := "999"]} "2025-01-01 10:00:00" in
  let w := World seeded session_max [] in
  referential_integrity (db w)
  ∧ location_of (db w) (Text "999") = None
  ∧ (add_stock req w).1 = Ok (redirect "/")
  ∧ stock (db (add_stock req w).2) =
      stock (db w) ++ [(3, Stock.mk "9999" None None None None (Some (Text "999")))]
  ∧ ¬ referential_integrity (db (add_stock req w).2).
Proof.
  intros req w.
  assert (Hstock : stock (db (add_stock req w).2) =
            stock (db w) ++ [(3, Stock.mk "9999" None None None None (Some (Text "999")))])
    by (vm_compute; reflexivity).
  split; [|split; [|split; [|split]]].
  - unfold referential_integrity. vm_compute. repeat constructor.
  - vm_compute. reflexivity.
  - vm_compute. reflexivity.
  - exact Hstock.
  - unfold referential_integrity. rewrite Hstock, Forall_app, Forall_singleton.
    intros [_ Hlast]. vm_compute in Hlast. discriminate Hlast.
Qed.

(** With a connection that enforces foreign keys the same insert fails. *)
Lemma insert_foreign_keys_on st s :
  dangling st s = true → insert (Engine true) (EStock s) st = Raise IntegrityError.
Proof. intros Hd. simpl. rewrite Hd. reflexivity. Qed.

(** ** [login], [logout], [show_image] *)

Section Login.

Variable check_password_hash : string → string → bool.

Lemma login_no_user req w username password :
  form req !! "username" = Some username →
  form req !! "password" = Some password →
  user_named username (db w) = None →
  login check_password_hash req w =
    (Ok invalid_credentials, World (db w) (session w) (db_log w ++ [Query "users"])).
Proof.
  unfold user_named. intros Hu Hp Hnone. run. simpl.
  rewrite Hu, Hp, Hnone. reflexivity.
Qed.

Lemma login_wrong_password req w username password row :
  form req !! "username" = Some username →
  form req !! "password" = Some password →
  user_named username (db w) = Some row →
  check_password_hash (User.password_hash row.2) password = false →
  login check_password_hash req w =
    (Ok invalid_credentials, World (db w) (session w) (db_log w ++ [Query "users"])).
Proof.
  unfold user_named. intros Hu Hp Hrow Hcheck. run. simpl.
  rewrite Hu, Hp, Hrow, Hcheck. reflexivity.
Qed.

Lemma login_verified req w username password row :
  form req !! "username" = Some username →
  form req !! "password" = Some password →
  user_named username (db w) = Some row →
  check_password_hash (User.password_hash row.2) password = true →
  login check_password_hash req w =
    (Ok (redirect "/"),
     World (db w)
       (<["username" := PyStr (User.username row.2)]>
          (<["logged_in" := PyBool true]> (session w)))
       (db_log w ++ [Query "users"])).
Proof.
  unfold user_named. intros Hu Hp Hrow Hcheck. run. simpl.
  rewrite Hu, Hp, Hrow, Hcheck. reflexivity.
Qed.

(** The row found has the name asked for. *)
Lemma user_named_username username st row :
  user_named username st = Some row → User.username row.2 = username.
Proof.
  unfold user_named. intros Hhead.
  apply head_Some_elem_of in Hhead. apply list_elem_of_filter in Hhead. tauto.
Qed.

(** C6. Two failed attempts on the same world, one for a name no user has,
    one for a user whose hash does not verify the password: [login] gives
    the same result and the same world for both, the view [login.html]
    with the one message [Invalid credentials], the session and the store
    as they were. *)
Theorem login_failures_indistinguishable
    (w : world) (req1 req2 : request) (u1 p1 u2 p2 : string) (row : Z * User.t) :
  form req1 !! "username" = Some u1 →
  form req1 !! "password" = Some p1 →
  form req2 !! "username" = Some u2 →
  form req2 !! "password" = Some p2 →
  user_named u1 (db w) = None →
  user_named u2 (db w) = Some row →
  check_password_hash (User.password_hash row.2) p2 = false →
  login check_password_hash req1 w = login check_password_hash req2 w
  ∧ (login check_password_hash req1 w).1 = Ok invalid_credentials
  ∧ session (login check_password_hash req1 w).2 = session w
  ∧ db (login check_password_hash req1 w).2 = db w.
Proof.
  intros Hu1 Hp1 Hu2 Hp2 Hnone Hrow Hcheck.
  rewrite (login_no_user req1 w u1 p1 Hu1 Hp1 Hnone).
  rewrite (login_wrong_password req2 w u2 p2 row Hu2 Hp2 Hrow Hcheck).
  auto.
Qed.

(** C5, at a failing input. A form without [username] makes
    [request.form['username']] raise, and nothing in [login] catches it:
    the route ends with the exception, not with a view or a redirect. *)
Theorem login_missing_username (w : world) :
  login check_password_hash (Request {["password" := "a"]} "") w
  = (Raise (BadRequestKeyError "username"), w).
Proof. reflexivity. Qed.

Lemma login_missing_password (w : world) :
  login check_password_hash (Request {["username" := "max"]} "") w
  = (Raise (BadRequestKeyError "password"), w).
Proof. reflexivity. Qed.

(** With both fields in the form, [login] returns. *)
Lemma login_returns req w username password :
  form req !! "username" = Some username →
  form req !! "password" = Some password →
  ∃ r, (login check_password_hash req w).1 = Ok r.
Proof.
  intros Hu Hp. run. simpl. rewrite Hu, Hp.
  destruct (head _) as [row|]; [destruct (check_password_hash _ _)|]; eauto.
Qed.

End Login.

(** The other routes return on every request and in every world. *)
Lemma add_stock_returns req w : (add_stock req w).1 = Ok (redirect "/").
Proof.
  run. destruct (truthy _); [|reflexivity]. simpl.
  destruct (form req !! "serial"); reflexivity.
Qed.

Lemma index_returns w : ∃ r, (index w).1 = Ok r.
Proof. run. destruct (truthy _); eauto. Qed.

Lemma view_notes_returns w : ∃ r, (view_notes w).1 = Ok r.
Proof. run. destruct (truthy _); eauto. Qed.

Lemma add_note_returns req w : ∃ r, (add_note req w).1 = Ok r.
Proof.
  run. destruct (truthy (session w !! "logged_in")); [|eauto]. simpl.
  destruct (truthy _); eauto.
Qed.

(** [logout] empties the session and touches nothing else. *)
Lemma logout_clears w :
  logout w = (Ok (redirect "/"), World (db w) ∅ (db_log w)).
Proof. reflexivity. Qed.

(** C10. [show_image] tests nothing and touches nothing: in every world,
    logged in or not, it renders [image.html] with no argument and leaves
    the store, the session and the list of store operations as they were. *)
Theorem show_image_ungated (w : world) :
  show_image w = (Ok (render_template "image.html" []), w).
Proof. reflexivity. Qed.

(** ** Ids and order *)

Section Tables.

Context {A : Type}.
Implicit Types (t : table A) (x : A) (r : Z * A).

Lemma foldr_max_le (i : Z) (ids : list Z) :
  i ≤ foldr Z.max i ids ∧ Forall (λ j, j ≤ foldr Z.max i ids) ids.
Proof.
  induction ids as [|j ids [IHi IHall]]; simpl; [split; [lia | constructor]|].
  split; [lia|]. constructor; [lia|].
  eapply Forall_impl; [exact IHall|]. simpl. intros k Hk. lia.
Qed.

Lemma foldr_max_snoc (i k : Z) (ids : list Z) :
  foldr Z.max i (ids ++ [k]) = Z.max k (foldr Z.max i ids).
Proof. induction ids as [|j ids IH]; simpl; [reflexivity|]. rewrite IH. lia. Qed.

(** A new id is above every id of the table. *)
Lemma next_id_cons i x t : next_id ((i, x) :: t) = 1 + foldr Z.max i (t.*1).
Proof. reflexivity. Qed.

Lemma next_id_above t : Forall (λ r, r.1 < next_id t) t.
Proof.
  destruct t as [|[i x] t]; [constructor|]. rewrite next_id_cons.
  destruct (foldr_max_le i (t.*1)) as [Hi Hall].
  set (m := foldr Z.max i (t.*1)) in *.
  constructor; [cbn [fst]; lia|].
  rewrite Forall_forall in Hall. apply Forall_forall. intros r Hr.
  assert (Hle : r.1 ≤ m) by (apply Hall, list_elem_of_fmap; eauto).
  lia.
Qed.

(** Ids are given in sequence. *)
Lemma next_id_snoc t x : next_id (t ++ [(next_id t, x)]) = next_id t + 1.
Proof.
  destruct t as [|[i y] t]; [reflexivity|].
  rewrite <- app_comm_cons, !next_id_cons, fmap_app.
  change ([(1 + foldr Z.max i (t.*1), x)].*1) with [1 + foldr Z.max i (t.*1)].
  rewrite foldr_max_snoc. set (m := foldr Z.max i (t.*1)). lia.
Qed.

Lemma insert_desc_Permutation r t : insert_desc r t ≡ₚ r :: t.
Proof.
  induction t as [|y t IH]; simpl; [reflexivity|].
  destruct (y.1 <? r.1); [reflexivity|].
  rewrite IH. apply Permutation_swap.
Qed.

Lemma order_by_id_desc_Permutation t : order_by_id_desc t ≡ₚ t.
Proof.
  unfold order_by_id_desc. induction t as [|r t IH]; simpl; [reflexivity|].
  rewrite insert_desc_Permutation, IH. reflexivity.
Qed.

Lemma insert_desc_sorted r t :
  StronglySorted id_desc t → StronglySorted id_desc (insert_desc r t).
Proof.
  induction 1 as [|y t Hsorted IH Hy]; simpl.
  - repeat constructor.
  - destruct (Z.ltb_spec (y.1) (r.1)) as [Hlt|Hge].
    + constructor; [constructor; assumption|].
      constructor; [unfold id_desc; lia|].
      eapply Forall_impl; [exact Hy|]. unfold id_desc. intros z Hz. lia.
    + constructor; [exact IH|].
      rewrite insert_desc_Permutation. constructor; assumption.
Qed.

Lemma order_by_id_desc_sorted t : StronglySorted id_desc (order_by_id_desc t).
Proof.
  unfold order_by_id_desc. induction t as [|r t IH]; simpl; [constructor|].
  apply insert_desc_sorted, IH.
Qed.

(** A row whose id is above all the others comes first. *)
Lemma foldr_insert_desc_above r t acc :
  Forall (λ y, y.1 < r.1) t →
  foldr insert_desc (r :: acc) t = r :: foldr insert_desc acc t.
Proof.
  induction 1 as [|y t Hy Hall IH]; simpl; [reflexivity|].
  rewrite IH. simpl. destruct (Z.ltb_spec (r.1) (y.1)); [lia | reflexivity].
Qed.

Lemma order_by_id_desc_snoc t x :
  order_by_id_desc (t ++ [(next_id t, x)]) = (next_id t, x) :: order_by_id_desc t.
Proof.
  unfold order_by_id_desc. rewrite foldr_app. simpl.
  apply foldr_insert_desc_above. apply next_id_above.
Qed.

End Tables.

(** ** Notes *)

Lemma view_notes_authenticated w :
  truthy (session w !! "logged_in") = true →
  view_notes w =
    (Ok (render_template "notes.html" [("notes", Notes (order_by_id_desc (notes (db w))))]),
     World (db w) (session w) (db_log w ++ [Query "notes"])).
Proof. intros Hin. run. rewrite Hin. reflexivity. Qed.

Lemma add_note_authenticated req w content :
  truthy (session w !! "logged_in") = true →
  form req !! "note_content" = Some content →
  content ≠ "" →
  add_note req w =
    (Ok (redirect "/notes"),
     World (Store (users (db w)) (locations (db w)) (stock (db w))
              (notes (db w) ++ [(next_id (notes (db w)), new_note req content)]))
       (session w) (db_log w ++ [Commit [ENote (new_note req content)]])).
Proof.
  intros Hin Hcontent Hne. run. rewrite Hin, Hcontent. simpl.
  destruct (String.eqb_spec content "") as [Heq|_]; [contradiction|]. reflexivity.
Qed.

Lemma add_note_appends req w content :
  truthy (session w !! "logged_in") = true →
  form req !! "note_content" = Some content →
  content ≠ "" →
  session (add_note req w).2 = session w
  ∧ notes (db (add_note req w).2) =
      notes (db w) ++ [(next_id (notes (db w)), new_note req content)].
Proof.
  intros Hin Hcontent Hne.
  rewrite (add_note_authenticated req w content Hin Hcontent Hne). auto.
Qed.

(** An empty or absent content changes nothing. *)
Lemma add_note_empty req w :
  truthy (session w !! "logged_in") = true →
  form req !! "note_content" = None ∨ form req !! "note_content" = Some "" →
  add_note req w = (Ok (redirect "/notes"), w).
Proof. intros Hin [Hc|Hc]; run; rewrite Hin, Hc; reflexivity. Qed.

(** C8. For a logged-in session [view_notes] renders [notes.html] with
    all the notes of the store, each once, in decreasing order of id. After
    three notes N1, N2, N3 are added in that order they are listed first as
    N3, N2, N1, before the notes the store had. *)
Theorem view_notes_newest_first
    (w : world) (req1 req2 req3 : request) (c1 c2 c3 : string) :
  truthy (session w !! "logged_in") = true →
  form req1 !! "note_content" = Some c1 → c1 ≠ "" →
  form req2 !! "note_content" = Some c2 → c2 ≠ "" →
  form req3 !! "note_content" = Some c3 → c3 ≠ "" →
  ∃ rows,
    (view_notes w).1 = Ok (render_template "notes.html" [("notes", Notes rows)])
    ∧ rows ≡ₚ notes (db w)
    ∧ StronglySorted id_desc rows
    ∧ db (view_notes w).2 = db w
    ∧ let w3 := (add_note req3 (add_note req2 (add_note req1 w).2).2).2 in
      let i := next_id (notes (db w)) in
      (view_notes w3).1 =
        Ok (render_template "notes.html"
              [("notes", Notes ((i + 2, new_note req3 c3) :: (i + 1, new_note req2 c2)
                                  :: (i, new_note req1 c1) :: rows))]).
Proof.
  intros Hin Hc1 Hne1 Hc2 Hne2 Hc3 Hne3.
  exists (order_by_id_desc (notes (db w))).
  rewrite (view_notes_authenticated w Hin). simpl.
  split; [reflexivity|].
  split; [apply order_by_id_desc_Permutation|].
  split; [apply order_by_id_desc_sorted|].
  split; [reflexivity|].
  destruct (add_note_appends req1 w c1 Hin Hc1 Hne1) as [Hs1 Hn1].
  set (w1 := (add_note req1 w).2) in *. rewrite <- Hs1 in Hin.
  destruct (add_note_appends req2 w1 c2 Hin Hc2 Hne2) as [Hs2 Hn2].
  set (w2 := (add_note req2 w1).2) in *. rewrite <- Hs2 in Hin.
  destruct (add_note_appends req3 w2 c3 Hin Hc3 Hne3) as [Hs3 Hn3].
  set (w3 := (add_note req3 w2).2) in *. rewrite <- Hs3 in Hin.
  rewrite (view_notes_authenticated w3 Hin). cbn [fst].
  set (i := next_id (notes (db w))) in *.
  assert (Hi1 : next_id (notes (db w1)) = i + 1)
    by (rewrite Hn1; apply next_id_snoc).
  assert (Hi2 : next_id (notes (db w2)) = i + 2)
    by (rewrite Hn2, next_id_snoc, Hi1; lia).
  rewrite Hn3, order_by_id_desc_snoc, Hi2.
  rewrite Hn2, order_by_id_desc_snoc, Hi1.
  rewrite Hn1. unfold i. rewrite order_by_id_desc_snoc. reflexivity.
Qed.

Lemma view_notes_newest_first_witness :
  let w := World seeded session_max [] in
  let req1 := Request {["note_content" := "N1"]} "2025-01-01 10:00:00" in
  let req2 := Request {["note_content" := "N2"]} "2025-01-01 10:00:01" in
  let req3 := Request {["note_content" := "N3"]} "2025-01-01 10:00:02" in
  ∃ rows,
    (view_notes w).1 = Ok (render_template "notes.html" [("notes", Notes rows)])
    ∧ rows ≡ₚ notes (db w)
    ∧ StronglySorted id_desc rows
    ∧ db (view_notes w).2 = db w
    ∧ let w3 := (add_note req3 (add_note req2 (add_note req1 w).2).2).2 in
      let i := next_id (notes (db w)) in
      (view_notes w3).1 =
        Ok (render_template "notes.html"
              [("notes", Notes ((i + 2, new_note req3 "N3") :: (i + 1, new_note req2 "N2")
                                  :: (i, new_note req1 "N1") :: rows))]).
Proof.
  intros w req1 req2 req3.
  apply (view_notes_newest_first w req1 req2 req3 "N1" "N2" "N3");
    try reflexivity; discriminate.
Defined.

(** ** Seeding *)

Section Ensure.

Context {A : Type} (P : Z * A → Prop) `{!∀ r, Decision (P r)}.
Implicit Types (t : table A) (x : A) (r : Z * A).

Lemma head_filter_None t : head (filter P t) = None → filter P t = [].
Proof. destruct (filter P t); [reflexivity | discriminate]. Qed.

Lemma head_filter_app_Some t t' r :
  head (filter P t) = Some r → head (filter P (t ++ t')) = Some r.
Proof.
  intros Hhead. rewrite filter_app.
  destruct (filter P t); [discriminate | exact Hhead].
Qed.

Lemma head_filter_snoc_new t r :
  head (filter P t) = None → P r → head (filter P (t ++ [r])) = Some r.
Proof.
  intros Hnone HP. rewrite filter_app, (head_filter_None t Hnone).
  rewrite filter_cons_True by exact HP. reflexivity.
Qed.

Lemma filter_snoc_other t r : ¬ P r → filter P (t ++ [r]) = filter P t.
Proof.
  intros HP. rewrite filter_app, filter_cons_False by exact HP.
  rewrite filter_nil. apply app_nil_r.
Qed.

Lemma ensure_present t x : is_Some (head (filter P t)) → ensure P x t = t.
Proof. intros [r Hr]. unfold ensure. rewrite Hr. reflexivity. Qed.

Lemma present_ensure t x :
  (∀ i, P (i, x)) → is_Some (head (filter P (ensure P x t))).
Proof.
  intros HP. unfold ensure. destruct (head (filter P t)) as [r|] eqn:Hhead.
  - rewrite Hhead. eauto.
  - rewrite (head_filter_snoc_new t _ Hhead (HP _)). eauto.
Qed.

Lemma count_ensure t x :
  (∀ i, P (i, x)) →
  length (filter P (ensure P x t)) = Nat.max 1 (length (filter P t)).
Proof.
  intros HP. unfold ensure. destruct (head (filter P t)) as [r|] eqn:Hhead.
  - destruct (filter P t); [discriminate | simpl; lia].
  - rewrite filter_app, (head_filter_None t Hhead).
    rewrite filter_cons_True by apply HP. reflexivity.
Qed.

End Ensure.

Section EnsureOther.

Context {A : Type} (P Q : Z * A → Prop)
  `{!∀ r, Decision (P r)} `{!∀ r, Decision (Q r)}.

(** Ensuring one record leaves the lookups of another as they were. *)
Lemma filter_ensure_other (t : table A) (x : A) :
  (∀ i, ¬ Q (i, x)) → filter Q (ensure P x t) = filter Q t.
Proof.
  intros HQ. unfold ensure. destruct (head (filter P t)); [reflexivity|].
  apply filter_snoc_other, HQ.
Qed.

End EnsureOther.

Lemma returns_bind {A B} (m : M A) (f : A → M B) w a st b st' :
  returns m w a st →
  (∀ events, returns (f a) (World st (session w) events) b st') →
  returns (m ≫= f) w b st'.
Proof.
  intros [events Hm] Hf. destruct (Hf events) as [events' Hf'].
  exists events'. unfold mbind, M_bind. rewrite Hm. exact Hf'.
Qed.

Lemma returns_mret {A} (a : A) st sess events :
  returns (mret a) (World st sess events) a st.
Proof. exists events. reflexivity. Qed.

Lemma returns_query_first {A} name (tbl : store → table A) (P : Z * A → Prop)
    `{!∀ r, Decision (P r)} w :
  returns (query_first name tbl P) w (head (filter P (tbl (db w)))) (db w).
Proof. eexists. reflexivity. Qed.

Lemma returns_add_commit_location l w :
  returns (add_commit (ELocation l)) w (next_id (locations (db w)))
    (Store (users (db w)) (locations (db w) ++ [(next_id (locations (db w)), l)])
       (stock (db w)) (notes (db w))).
Proof. eexists. reflexivity. Qed.

Lemma not_elem_of_usernames (username : string) (t : table User.t) :
  head (filter (by_username username) t) = None →
  username ∉ (λ r : Z * User.t, User.username r.2) <$> t.
Proof.
  intros Hnone Hin. apply head_filter_None in Hnone.
  apply list_elem_of_fmap in Hin as [r [Heq Hr]].
  assert (Hf : r ∈ filter (by_username username) t)
    by (apply list_elem_of_filter; split; [symmetry; exact Heq | exact Hr]).
  rewrite Hnone in Hf. inversion Hf.
Qed.

Lemma seed_rows_returns hashed tpa clw w :
  returns (seed_rows hashed tpa clw) w ()
    (Store (ensure (by_username "max") (User.mk "max" hashed) (users (db w)))
       (locations (db w))
       (ensure (by_serial "1138") (stock_1138 clw)
          (ensure (by_serial "1137") (stock_1137 tpa) (stock (db w))))
       (notes (db w))).
Proof.
  destruct w as [[us ls ss ns] sess lg]. unfold seed_rows.
  eapply returns_bind; [apply returns_query_first|]. intros ev1.
  eapply returns_bind; [apply returns_query_first|]. intros ev2.
  eapply returns_bind; [apply returns_query_first|]. intros ev3.
  cbn [db session users stock locations notes].
  unfold ensure at 1 3.
  destruct (head (filter (by_username "max") us)) as [u|] eqn:Hmax;
  destruct (head (filter (by_serial "1137") ss)) as [s1|] eqn:H1137.
  all: unfold ensure;
    rewrite ?(filter_snoc_other (by_serial "1138")) by (intros Heq; discriminate Heq);
    destruct (head (filter (by_serial "1138") ss)) as [s2|] eqn:H1138.
  all: eexists;
    cbv [except_IntegrityError try_except commit rollback log raise mbind M_bind mret M_ret
         ENGINE];
    cbn [db session db_log users locations stock notes app flush insert foreign_keys andb].
  all: try (destruct (decide _) as [Hin|_];
            [exfalso; exact (not_elem_of_usernames "max" us Hmax Hin)|]).
  all: cbn [users locations stock notes]; try reflexivity.
Qed.

Lemma returns_store {A} (m : M A) w a st st' :
  returns m w a st → st = st' → returns m w a st'.
Proof. intros Hm <-. exact Hm. Qed.

Lemma first_id_found {A} (P : Z * A → Prop) `{!∀ r, Decision (P r)} (t : table A) r :
  head (filter P t) = Some r → first_id P t = r.1.
Proof. intros Hhead. unfold first_id. rewrite Hhead. reflexivity. Qed.

Lemma init_db_seed gen salt w :
  returns (init_db gen salt) w () (seed_store (gen salt "a") (db w)).
Proof.
  destruct w as [[us ls ss ns] sess lg]. unfold init_db.
  change (Location.mk (Some "TPA") (Some "GAR") (Some "A")) with TPA_GAR_A.
  change (Location.mk (Some "CLW") (Some "CON") (Some "B")) with CLW_CON_B.
  eapply returns_bind; [apply returns_query_first|]. intros ev1.
  cbn [db session locations].
  destruct (head (filter (by_office "TPA") ls)) as [tpa|] eqn:Htpa.
  - eapply returns_bind; [apply returns_mret|]. intros ev2.
    eapply returns_bind; [apply returns_query_first|]. intros ev3.
    cbn [db session locations].
    destruct (head (filter (by_office "CLW") ls)) as [clw|] eqn:Hclw.
    + eapply returns_bind; [apply returns_mret|]. intros ev4.
      eapply returns_store;
        [exact (seed_rows_returns (gen salt "a") tpa.1 clw.1 _)|].
      unfold seed_store. cbn [db session users locations stock notes].
      assert (Hlocs : ensure (by_office "CLW") CLW_CON_B
                        (ensure (by_office "TPA") TPA_GAR_A ls) = ls)
        by (unfold ensure; rewrite Htpa, Hclw; reflexivity).
      rewrite Hlocs, (first_id_found _ _ _ Htpa), (first_id_found _ _ _ Hclw).
      reflexivity.
    + eapply returns_bind;
        [eapply returns_bind; [apply returns_add_commit_location|];
         intros ev4; apply returns_mret|].
      intros ev5.
      eapply returns_store;
        [exact (seed_rows_returns (gen salt "a") tpa.1 (next_id ls) _)|].
      unfold seed_store. cbn [db session users locations stock notes fst].
      assert (Hlocs : ensure (by_office "CLW") CLW_CON_B
                        (ensure (by_office "TPA") TPA_GAR_A ls)
                      = ls ++ [(next_id ls, CLW_CON_B)])
        by (unfold ensure; rewrite Htpa, Hclw; reflexivity).
      rewrite Hlocs.
      rewrite (first_id_found _ _ _ (head_filter_app_Some _ _ _ _ Htpa)).
      rewrite (first_id_found _ _ _
                 (head_filter_snoc_new (by_office "CLW") _ (_, CLW_CON_B) Hclw eq_refl)).
      reflexivity.
  - eapply returns_bind;
      [eapply returns_bind; [apply returns_add_commit_location|];
       intros ev2; apply returns_mret|].
    intros ev3.
    eapply returns_bind; [apply returns_query_first|]. intros ev4.
    cbn [db session locations].
    pose proof (head_filter_snoc_new (by_office "TPA") ls (next_id ls, TPA_GAR_A)
                  Htpa eq_refl) as Htpa'.
    destruct (head (filter (by_office "CLW") (ls ++ [(next_id ls, TPA_GAR_A)])))
      as [clw|] eqn:Hclw.
    + eapply returns_bind; [apply returns_mret|]. intros ev5.
      eapply returns_store;
        [exact (seed_rows_returns (gen salt "a") (next_id ls) clw.1 _)|].
      unfold seed_store. cbn [db session users locations stock notes fst].
      assert (Hlocs : ensure (by_office "CLW") CLW_CON_B
                        (ensure (by_office "TPA") TPA_GAR_A ls)
                      = ls ++ [(next_id ls, TPA_GAR_A)])
        by (unfold ensure; rewrite Htpa, Hclw; reflexivity).
      rewrite Hlocs, (first_id_found _ _ _ Htpa'), (first_id_found _ _ _ Hclw).
      reflexivity.
    + eapply returns_bind;
        [eapply returns_bind; [apply returns_add_commit_location|];
         intros ev5; apply returns_mret|].
      intros ev6.
      eapply returns_store;
        [exact (seed_rows_returns (gen salt "a") (next_id ls)
                  (next_id (ls ++ [(next_id ls, TPA_GAR_A)])) _)|].
      unfold seed_store. cbn [db session users locations stock notes fst].
      assert (Hlocs : ensure (by_office "CLW") CLW_CON_B
                        (ensure (by_office "TPA") TPA_GAR_A ls)
                      = (ls ++ [(next_id ls, TPA_GAR_A)])
                          ++ [(next_id (ls ++ [(next_id ls, TPA_GAR_A)]), CLW_CON_B)])
        by (unfold ensure; rewrite Htpa, Hclw; reflexivity).
      rewrite Hlocs.
      rewrite (first_id_found _ _ _ (head_filter_app_Some _ _ _ _ Htpa')).
      rewrite (first_id_found _ _ _
                 (head_filter_snoc_new (by_office "CLW") _ (_, CLW_CON_B) Hclw eq_refl)).
      reflexivity.
Qed.

(** [init_db] returns, leaves the session alone and makes [seed_store] of
    the store. *)
Lemma init_db_runs gen salt w :
  (init_db gen salt w).1 = Ok ()
  ∧ db (init_db gen salt w).2 = seed_store (gen salt "a") (db w)
  ∧ session (init_db gen salt w).2 = session w.
Proof. destruct (init_db_seed gen salt w) as [events ->]. auto. Qed.

Lemma db_restart gen salt w :
  db (restart gen salt w) = seed_store (gen salt "a") (db w).
Proof. apply init_db_runs. Qed.

Lemma session_restart gen salt w : session (restart gen salt w) = session w.
Proof. apply init_db_runs. Qed.

Section EnsureMono.

Context {A : Type} (P Q : Z * A → Prop)
  `{!∀ r, Decision (P r)} `{!∀ r, Decision (Q r)}.

(** A record that is there stays there. *)
Lemma present_ensure_mono (t : table A) (x : A) :
  is_Some (head (filter Q t)) → is_Some (head (filter Q (ensure P x t))).
Proof.
  intros [r Hr]. unfold ensure. destruct (head (filter P t)); [eauto|].
  rewrite (head_filter_app_Some Q t _ r Hr). eauto.
Qed.

End EnsureMono.

(** A seeded store is a fixed point of seeding, whatever the hash drawn. *)
Lemma seed_store_fixed hashed hashed' st :
  seed_store hashed' (seed_store hashed st) = seed_store hashed st.
Proof.
  unfold seed_store. cbn [users locations stock notes].
  set (locs := ensure (by_office "CLW") CLW_CON_B
                 (ensure (by_office "TPA") TPA_GAR_A (locations st))).
  assert (Hlocs : ensure (by_office "CLW") CLW_CON_B
                    (ensure (by_office "TPA") TPA_GAR_A locs) = locs).
  { rewrite (ensure_present (by_office "TPA") locs).
    - apply ensure_present, present_ensure. reflexivity.
    - apply present_ensure_mono, present_ensure. reflexivity. }
  rewrite Hlocs. f_equal.
  - apply ensure_present, present_ensure. reflexivity.
  - match goal with |- _ = ?seeded_rows => set (rows := seeded_rows) end.
    rewrite (ensure_present (by_serial "1137") rows).
    + apply ensure_present, present_ensure. reflexivity.
    + apply present_ensure_mono, present_ensure. reflexivity.
Qed.

(** Seeding adds a record where there was none and nothing else. *)
Lemma reference_counts_seed_store hashed st :
  reference_counts (seed_store hashed st) = Nat.max 1 <$> reference_counts st.
Proof.
  unfold reference_counts, count_office, count_username, count_serial, seed_store.
  cbn [users locations stock notes fmap list_fmap].
  repeat f_equal.
  - rewrite (filter_ensure_other (by_office "CLW") (by_office "TPA"))
      by (intros i Heq; discriminate Heq).
    apply count_ensure. reflexivity.
  - rewrite (count_ensure (by_office "CLW")) by reflexivity.
    rewrite (filter_ensure_other (by_office "TPA") (by_office "CLW"))
      by (intros i Heq; discriminate Heq).
    reflexivity.
  - apply count_ensure. reflexivity.
  - rewrite (filter_ensure_other (by_serial "1138") (by_serial "1137"))
      by (intros i Heq; discriminate Heq).
    apply count_ensure. reflexivity.
  - rewrite (count_ensure (by_serial "1138")) by reflexivity.
    rewrite (filter_ensure_other (by_serial "1137") (by_serial "1138"))
      by (intros i Heq; discriminate Heq).
    reflexivity.
Qed.

(** Further starts change nothing in a store that was seeded. *)
Lemma db_restarts_seeded gen salts w hashed st :
  db w = seed_store hashed st → db (restarts gen salts w) = db w.
Proof.
  revert w. induction salts as [|salt salts IH]; intros w Hw; [reflexivity|].
  unfold restarts in *. cbn [foldl]. rewrite (IH (restart gen salt w)).
  - rewrite db_restart, Hw. apply seed_store_fixed.
  - rewrite db_restart, Hw, seed_store_fixed. reflexivity.
Qed.

(** C3, as the code has it. However many times the process starts, the
    store is the one the first start left. And when the store held at most
    one record of each of the five kinds [init_db] looks for, as the empty
    store does, it then holds one of each: one location per office TPA and
    CLW, one user max, one stock row per serial 1137 and 1138. *)
Theorem init_db_idempotent
    (generate_password_hash : string → string → string)
    (salts : list string) (w : world) :
  (1 ≤ length salts)%nat →
  db (restarts generate_password_hash salts w)
    = db (restarts generate_password_hash (take 1 salts) w)
  ∧ (Forall (λ n, (n ≤ 1)%nat) (reference_counts (db w)) →
     reference_counts (db (restarts generate_password_hash salts w))
       = [1; 1; 1; 1; 1]%nat).
Proof.
  intros Hlen. destruct salts as [|salt salts]; [simpl in Hlen; lia|].
  assert (Hdb : db (restarts generate_password_hash (salt :: salts) w)
                = seed_store (generate_password_hash salt "a") (db w)).
  { unfold restarts. cbn [foldl].
    change (foldl _ ?w0 salts) with (restarts generate_password_hash salts w0).
    rewrite (db_restarts_seeded _ salts _ (generate_password_hash salt "a") (db w))
      by apply db_restart.
    apply db_restart. }
  split.
  - rewrite Hdb. symmetry. apply db_restart.
  - intros Hcounts. rewrite Hdb, reference_counts_seed_store.
    unfold reference_counts in *.
    repeat match goal with
           | H : Forall _ (_ :: _) |- _ => apply Forall_cons in H as [? H]
           end.
    cbn [fmap list_fmap]. repeat f_equal; lia.
Qed.

Lemma init_db_idempotent_witness :
  db (restarts clear_hash ["salt"; "pepper"; "thyme"] fresh)
    = db (restarts clear_hash ["salt"] fresh)
  ∧ reference_counts (db (restarts clear_hash ["salt"; "pepper"; "thyme"] fresh))
      = [1; 1; 1; 1; 1]%nat.
Proof.
  destruct (init_db_idempotent clear_hash ["salt"; "pepper"; "thyme"] fresh) as [Hdb Hcounts].
  - simpl. lia.
  - split; [exact Hdb|]. apply Hcounts. repeat constructor.
Defined.

(** The next start keeps both rows: C3 does not hold from every store. *)
Lemma init_db_keeps_duplicates :
  let w := World twice_1137 ∅ [] in
  db (restarts clear_hash ["pepper"] w) = twice_1137
  ∧ count_serial "1137" (db (restarts clear_hash ["pepper"] w)) = 2%nat
  ∧ reference_counts (db (restarts clear_hash ["pepper"] w)) ≠ [1; 1; 1; 1; 1]%nat.
Proof.
  split; [vm_compute; reflexivity|]. split; [vm_compute; reflexivity|].
  vm_compute. intros Heq. discriminate Heq.
Qed.

(** ** Logging in after seeding *)

Lemma user_named_seed_store_new username hashed st :
  user_named username st = None →
  user_named username (seed_store hashed st) =
    if decide (username = "max")
    then Some (next_id (users st), User.mk "max" hashed)
    else None.
Proof.
  unfold user_named, seed_store. cbn [users]. intros Hnone.
  destruct (decide (username = "max")) as [->|Hne].
  - unfold ensure. rewrite Hnone. apply head_filter_snoc_new; [exact Hnone | reflexivity].
  - rewrite (filter_ensure_other (by_username "max") (by_username username)).
    + exact Hnone.
    + intros i Heq. apply Hne. symmetry. exact Heq.
Qed.

(** C7. Seed a store that had no user max and no user nouser, a fresh
    database for one, with a hashing scheme under which the hash of [a]
    verifies [a] and not [wrong]. The session, anonymous before, is still
    anonymous after seeding. Then [login] of max with [a] redirects to [/]
    and leaves the session authenticated as max; [login] of max with
    [wrong] and [login] of nouser with [x] both give the one
    invalid-credentials view and leave the session as it was. *)
Theorem login_after_seeding
    (generate_password_hash : string → string → string)
    (check_password_hash : string → string → bool)
    (salt : string) (w : world) :
  check_password_hash (generate_password_hash salt "a") "a" = true →
  check_password_hash (generate_password_hash salt "a") "wrong" = false →
  user_named "max" (db w) = None →
  user_named "nouser" (db w) = None →
  anonymous (session w) →
  let w1 := restart generate_password_hash salt w in
  let good := login check_password_hash (credentials "max" "a") w1 in
  let bad := login check_password_hash (credentials "max" "wrong") w1 in
  let unknown := login check_password_hash (credentials "nouser" "x") w1 in
  anonymous (session w1)
  ∧ good.1 = Ok (redirect "/")
  ∧ authenticated (session good.2) "max"
  ∧ bad.1 = Ok invalid_credentials
  ∧ session bad.2 = session w1
  ∧ unknown.1 = Ok invalid_credentials
  ∧ session unknown.2 = session w1.
Proof.
  intros Hgood Hbad Hmax Hnouser Hanon w1 good bad unknown.
  assert (Hrow : user_named "max" (db w1)
                 = Some (next_id (users (db w)),
                         User.mk "max" (generate_password_hash salt "a"))).
  { unfold w1. rewrite db_restart, (user_named_seed_store_new "max" _ _ Hmax).
    reflexivity. }
  assert (Hnone : user_named "nouser" (db w1) = None).
  { unfold w1. rewrite db_restart, (user_named_seed_store_new "nouser" _ _ Hnouser).
    reflexivity. }
  split; [unfold w1; rewrite session_restart; exact Hanon|].
  unfold good, bad, unknown.
  rewrite (login_verified check_password_hash (credentials "max" "a") w1
             "max" "a" _ eq_refl eq_refl Hrow Hgood).
  rewrite (login_wrong_password check_password_hash (credentials "max" "wrong") w1
             "max" "wrong" _ eq_refl eq_refl Hrow Hbad).
  rewrite (login_no_user check_password_hash (credentials "nouser" "x") w1
             "nouser" "x" eq_refl eq_refl Hnone).
  cbn [fst snd session User.username].
  repeat split.
  - rewrite lookup_insert_ne by discriminate. rewrite lookup_insert_eq. reflexivity.
  - apply lookup_insert_eq.
Qed.

Lemma login_after_seeding_witness :
  let w1 := restart clear_hash "salt" fresh in
  let good := login clear_check (credentials "max" "a") w1 in
  let bad := login clear_check (credentials "max" "wrong") w1 in
  let unknown := login clear_check (credentials "nouser" "x") w1 in
  anonymous (session w1)
  ∧ good.1 = Ok (redirect "/")
  ∧ authenticated (session good.2) "max"
  ∧ bad.1 = Ok invalid_credentials
  ∧ session bad.2 = session w1
  ∧ unknown.1 = Ok invalid_credentials
  ∧ session unknown.2 = session w1.
Proof.
  apply (login_after_seeding clear_hash clear_check "salt" fresh); reflexivity.
Defined.

Lemma login_failures_indistinguishable_witness :
  let w := World seeded ∅ [] in
  login clear_check (credentials "nouser" "x") w
    = login clear_check (credentials "max" "wrong") w
  ∧ (login clear_check (credentials "nouser" "x") w).1 = Ok invalid_credentials
  ∧ session (login clear_check (credentials "nouser" "x") w).2 = session w
  ∧ db (login clear_check (credentials "nouser" "x") w).2 = db w.
Proof.
  intros w.
  apply (login_failures_indistinguishable clear_check w
           (credentials "nouser" "x") (credentials "max" "wrong")
           "nouser" "x" "max" "wrong" (1, User.mk "max" "salt$a"));
    reflexivity.
Defined.

(** * More on the routes *)

(** ** What each route does to the world *)

(** [add_stock] either leaves the world as it is or appends one stock row. *)
Lemma add_stock_world req w :
  (add_stock req w).2 = w
  ∨ ∃ serial,
      truthy (session w !! "logged_in") = true
      ∧ form req !! "serial" = Some serial
      ∧ (add_stock req w).2 =
          World (Store (users (db w)) (locations (db w))
                   (stock (db w) ++ [(next_id (stock (db w)), new_item req serial)])
                   (notes (db w)))
            (session w) (db_log w ++ [Commit [EStock (new_item req serial)]]).
Proof.
  destruct (truthy (session w !! "logged_in")) eqn:Hin.
  - destruct (form req !! "serial") as [serial|] eqn:Hserial.
    + right. exists serial. rewrite (add_stock_authenticated req w serial Hin Hserial). auto.
    + left. run. rewrite Hin, Hserial. reflexivity.
  - left. rewrite (add_stock_anonymous req w Hin). reflexivity.
Qed.

(** [add_note] either leaves the world as it is or appends one note. *)
Lemma add_note_world req w :
  (add_note req w).2 = w
  ∨ ∃ content,
      truthy (session w !! "logged_in") = true
      ∧ form req !! "note_content" = Some content
      ∧ content ≠ ""
      ∧ (add_note req w).2 =
          World (Store (users (db w)) (locations (db w)) (stock (db w))
                   (notes (db w) ++ [(next_id (notes (db w)), new_note req content)]))
            (session w) (db_log w ++ [Commit [ENote (new_note req content)]]).
Proof.
  destruct (truthy (session w !! "logged_in")) eqn:Hin.
  - destruct (form req !! "note_content") as [content|] eqn:Hcontent.
    + destruct (decide (content = "")) as [->|Hne].
      * left. rewrite (add_note_empty req w Hin); auto.
      * right. exists content.
        rewrite (add_note_authenticated req w content Hin Hcontent Hne). auto.
    + left. rewrite (add_note_empty req w Hin); auto.
  - left. rewrite (add_note_anonymous req w Hin). reflexivity.
Qed.

Lemma index_world w : db (index w).2 = db w ∧ session (index w).2 = session w.
Proof. run. destruct (truthy _); auto. Qed.

Lemma view_notes_world w :
  db (view_notes w).2 = db w ∧ session (view_notes w).2 = session w.
Proof. run. destruct (truthy _); auto. Qed.

Lemma login_db check req w : db (login check req w).2 = db w.
Proof.
  run. destruct (form req !! "username"); [|reflexivity].
  destruct (form req !! "password"); [|reflexivity]. simpl.
  destruct (head _) as [row|]; [destruct (check _ _)|]; reflexivity.
Qed.

(** [login] leaves the session as it is unless the credentials verify. *)
Lemma login_session check req w :
  session (login check req w).2 = session w
  ∨ ∃ username password row,
      form req !! "username" = Some username
      ∧ form req !! "password" = Some password
      ∧ user_named username (db w) = Some row
      ∧ check (User.password_hash row.2) password = true
      ∧ session (login check req w).2 =
          <["username" := PyStr username]> (<["logged_in" := PyBool true]> (session w)).
Proof.
  destruct (form req !! "username") as [username|] eqn:Hu;
    [|left; run; rewrite Hu; reflexivity].
  destruct (form req !! "password") as [password|] eqn:Hp;
    [|left; run; rewrite Hu, Hp; reflexivity].
  destruct (user_named username (db w)) as [row|] eqn:Hrow.
  - destruct (check (User.password_hash row.2) password) eqn:Hcheck.
    + right. exists username, password, row.
      rewrite (login_verified check req w username password row Hu Hp Hrow Hcheck).
      rewrite (user_named_username check username (db w) row Hrow). auto.
    + left. rewrite (login_wrong_password check req w username password row Hu Hp Hrow Hcheck).
      reflexivity.
  - left. rewrite (login_no_user check req w username password Hu Hp Hrow). reflexivity.
Qed.

(** ** Tables only grow *)

Lemma ensure_extends {A} (P : Z * A → Prop) `{!∀ r, Decision (P r)} (x : A) (t : table A) :
  t `prefix_of` ensure P x t.
Proof.
  unfold ensure. destruct (head (filter P t)); [reflexivity|].
  apply prefix_app_r. reflexivity.
Qed.

Lemma store_extends_refl st : store_extends st st.
Proof. unfold store_extends. auto. Qed.

Lemma store_extends_trans st1 st2 st3 :
  store_extends st1 st2 → store_extends st2 st3 → store_extends st1 st3.
Proof.
  unfold store_extends. intros (Hu & Hl & Hs & Hn) (Hu' & Hl' & Hs' & Hn').
  repeat split; etrans; eassumption.
Qed.

Lemma seed_store_extends hashed st : store_extends st (seed_store hashed st).
Proof.
  unfold store_extends, seed_store. cbn [users locations stock notes].
  split; [apply ensure_extends|].
  split; [etrans; [apply (ensure_extends (by_office "TPA")) | apply ensure_extends]|].
  split; [etrans; [apply (ensure_extends (by_serial "1137")) | apply ensure_extends]|].
  reflexivity.
Qed.

Lemma run_op_extends gen check o w : store_extends (db w) (db (run_op gen check o w)).
Proof.
  destruct o as [salt|req| |req| | | |req]; cbn [run_op].
  - destruct (init_db_runs gen salt w) as (_ & -> & _). apply seed_store_extends.
  - destruct (add_stock_world req w) as [->|(serial & _ & _ & ->)];
      [apply store_extends_refl|].
    unfold store_extends. cbn [db users locations stock notes].
    repeat split; try reflexivity. apply prefix_app_r. reflexivity.
  - destruct (index_world w) as [-> _]. apply store_extends_refl.
  - rewrite login_db. apply store_extends_refl.
  - apply store_extends_refl.
  - apply store_extends_refl.
  - destruct (view_notes_world w) as [-> _]. apply store_extends_refl.
  - destruct (add_note_world req w) as [->|(content & _ & _ & _ & ->)];
      [apply store_extends_refl|].
    unfold store_extends. cbn [db users locations stock notes].
    repeat split; try reflexivity. apply prefix_app_r. reflexivity.
Qed.

(** X1. The store is append-only. Whatever operations run, in whatever
    order, with whatever requests, every table of the store they leave
    starts with the rows it had, unchanged and in place: no start and no
    route updates or deletes a row. *)
Theorem store_append_only
    (generate_password_hash : string → string → string)
    (check_password_hash : string → string → bool)
    (ops : list operation) (w : world) :
  store_extends (db w) (db (run_ops generate_password_hash check_password_hash ops w)).
Proof.
  revert w. induction ops as [|o ops IH]; intros w; [apply store_extends_refl|].
  unfold run_ops in *. cbn [foldl].
  eapply store_extends_trans; [apply run_op_extends | apply IH].
Qed.

(** X2. The routes that only read, [index], [login], [logout],
    [show_image] and [view_notes], leave the store as it is on every
    request and in every session, also when [login] raises. *)
Theorem reading_routes_keep_store
    (check_password_hash : string → string → bool) (req : request) (w : world) :
  db (index w).2 = db w
  ∧ db (login check_password_hash req w).2 = db w
  ∧ db (logout w).2 = db w
  ∧ db (show_image w).2 = db w
  ∧ db (view_notes w).2 = db w.
Proof.
  split; [apply index_world|]. split; [apply login_db|].
  split; [reflexivity|]. split; [reflexivity|]. apply view_notes_world.
Qed.

(** X3. Only [login] and [logout] write the session: a start of the
    process and the routes [add_stock], [index], [show_image],
    [view_notes] and [add_note] leave it as it is on every request. *)
Theorem session_written_by_login_logout_only
    (generate_password_hash : string → string → string)
    (salt : string) (req : request) (w : world) :
  session (init_db generate_password_hash salt w).2 = session w
  ∧ session (add_stock req w).2 = session w
  ∧ session (index w).2 = session w
  ∧ session (show_image w).2 = session w
  ∧ session (view_notes w).2 = session w
  ∧ session (add_note req w).2 = session w.
Proof.
  split; [apply init_db_runs|].
  split; [destruct (add_stock_world req w) as [->|(serial & _ & _ & ->)]; reflexivity|].
  split; [apply index_world|]. split; [reflexivity|].
  split; [apply view_notes_world|].
  destruct (add_note_world req w) as [->|(content & _ & _ & _ & ->)]; reflexivity.
Qed.

(** ** The way through the gate *)

Lemma anonymous_empty : anonymous ∅.
Proof. reflexivity. Qed.

(** X4. The only way out of the anonymous state is a login that
    verifies. If the session is anonymous before an operation and not
    after it, the operation is a [login] whose form names a user of the
    store and a password that user's hash verifies. *)
Theorem gate_opens_by_verified_login_only
    (generate_password_hash : string → string → string)
    (check_password_hash : string → string → bool)
    (o : operation) (w : world) :
  anonymous (session w) →
  ¬ anonymous (session (run_op generate_password_hash check_password_hash o w)) →
  ∃ req username password row,
    o = op_login req
    ∧ form req !! "username" = Some username
    ∧ form req !! "password" = Some password
    ∧ user_named username (db w) = Some row
    ∧ check_password_hash (User.password_hash row.2) password = true.
Proof.
  intros Hanon Hafter. destruct o as [salt|req| |req| | | |req]; cbn [run_op] in Hafter.
  - exfalso. apply Hafter. destruct (init_db_runs generate_password_hash salt w) as (_ & _ & ->).
    exact Hanon.
  - exfalso. apply Hafter.
    destruct (add_stock_world req w) as [->|(serial & _ & _ & ->)]; exact Hanon.
  - exfalso. apply Hafter. destruct (index_world w) as [_ ->]. exact Hanon.
  - destruct (login_session check_password_hash req w)
      as [Hsame|(username & password & row & Hu & Hp & Hrow & Hcheck & _)].
    + exfalso. apply Hafter. rewrite Hsame. exact Hanon.
    + exists req, username, password, row. auto.
  - exfalso. apply Hafter. exact anonymous_empty.
  - exfalso. apply Hafter. exact Hanon.
  - exfalso. apply Hafter. destruct (view_notes_world w) as [_ ->]. exact Hanon.
  - exfalso. apply Hafter.
    destruct (add_note_world req w) as [->|(content & _ & _ & _ & ->)]; exact Hanon.
Qed.

Lemma gate_opens_by_verified_login_only_witness :
  ∃ req username password row,
    op_login (credentials "max" "a") = op_login req
    ∧ form req !! "username" = Some username
    ∧ form req !! "password" = Some password
    ∧ user_named username seeded = Some row
    ∧ clear_check (User.password_hash row.2) password = true.
Proof.
  apply (gate_opens_by_verified_login_only clear_hash clear_check
           (op_login (credentials "max" "a")) (World seeded ∅ [])).
  - reflexivity.
  - vm_compute. discriminate.
Defined.

(** X5. [login] reads [username], then [password], before anything else.
    If the form misses one, the route raises [BadRequestKeyError] for the
    first one missing and the world is untouched: no query is made. If the
    form has both, the route returns a response. *)
Theorem login_raises_on_missing_field
    (check_password_hash : string → string → bool) (req : request) (w : world) :
  match missing_field req with
  | Some k => login check_password_hash req w = (Raise (BadRequestKeyError k), w)
  | None => ∃ r, (login check_password_hash req w).1 = Ok r
  end.
Proof.
  unfold missing_field.
  destruct (form req !! "username") as [username|] eqn:Hu;
    [|run; rewrite Hu; reflexivity].
  destruct (form req !! "password") as [password|] eqn:Hp;
    [|run; rewrite Hu, Hp; reflexivity].
  apply (login_returns check_password_hash req w username password Hu Hp).
Qed.

(** ** Keys *)

Lemma next_id_fresh {A} (t : table A) : next_id t ∉ t.*1.
Proof.
  intros Hin. apply list_elem_of_fmap in Hin as [r [Heq Hr]].
  pose proof (next_id_above t) as Habove. rewrite Forall_forall in Habove.
  specialize (Habove r Hr). lia.
Qed.

Lemma NoDup_snoc_next_id {A} (t : table A) (x : A) :
  NoDup t.*1 → NoDup (t ++ [(next_id t, x)]).*1.
Proof.
  intros Hnodup. rewrite fmap_app. apply NoDup_app. split; [exact Hnodup|].
  split; [|apply NoDup_singleton].
  intros i Hi Hin. apply list_elem_of_singleton in Hin. subst i.
  exact (next_id_fresh t Hi).
Qed.

Lemma NoDup_ensure {A} (P : Z * A → Prop) `{!∀ r, Decision (P r)} (x : A) (t : table A) :
  NoDup t.*1 → NoDup (ensure P x t).*1.
Proof.
  intros Hnodup. unfold ensure. destruct (head (filter P t)); [exact Hnodup|].
  apply NoDup_snoc_next_id, Hnodup.
Qed.

Lemma keys_unique_seed_store hashed st : keys_unique st → keys_unique (seed_store hashed st).
Proof.
  unfold keys_unique, seed_store. cbn [users locations stock notes].
  intros (Hu & Hl & Hs & Hn).
  split; [apply NoDup_ensure, Hu|].
  split; [apply NoDup_ensure, (NoDup_ensure (by_office "TPA")), Hl|].
  split; [apply NoDup_ensure, (NoDup_ensure (by_serial "1137")), Hs|].
  exact Hn.
Qed.

Lemma run_op_keys_unique gen check o w :
  keys_unique (db w) → keys_unique (db (run_op gen check o w)).
Proof.
  intros Hkeys. destruct o as [salt|req| |req| | | |req]; cbn [run_op].
  - destruct (init_db_runs gen salt w) as (_ & -> & _).
    apply keys_unique_seed_store, Hkeys.
  - destruct (add_stock_world req w) as [->|(serial & _ & _ & ->)]; [exact Hkeys|].
    destruct Hkeys as (Hu & Hl & Hs & Hn). unfold keys_unique. cbn [db users locations stock notes].
    auto using NoDup_snoc_next_id.
  - destruct (index_world w) as [-> _]. exact Hkeys.
  - rewrite login_db. exact Hkeys.
  - exact Hkeys.
  - exact Hkeys.
  - destruct (view_notes_world w) as [-> _]. exact Hkeys.
  - destruct (add_note_world req w) as [->|(content & _ & _ & _ & ->)]; [exact Hkeys|].
    destruct Hkeys as (Hu & Hl & Hs & Hn). unfold keys_unique. cbn [db users locations stock notes].
    auto using NoDup_snoc_next_id.
Qed.

(** X6. Ids stay unique. If no id occurs twice in a table of the store,
    none does after any sequence of operations: each insert takes an id
    above all the ids of its table. *)
Theorem ids_stay_unique
    (generate_password_hash : string → string → string)
    (check_password_hash : string → string → bool)
    (ops : list operation) (w : world) :
  keys_unique (db w) →
  keys_unique (db (run_ops generate_password_hash check_password_hash ops w)).
Proof.
  revert w. induction ops as [|o ops IH]; intros w Hkeys; [exact Hkeys|].
  unfold run_ops in *. cbn [foldl]. apply IH, run_op_keys_unique, Hkeys.
Qed.

Lemma ids_stay_unique_witness :
  keys_unique
    (db (run_ops clear_hash clear_check
           [op_init_db "salt"; op_login (credentials "max" "a");
            op_add_stock (Request {["serial" := "1137"]} "");
            op_add_note (Request {["note_content" := "N1"]} "2025-01-01 10:00:00");
            op_init_db "pepper"]
           fresh)).
Proof.
  apply (ids_stay_unique clear_hash clear_check).
  unfold keys_unique. cbn. repeat split; apply NoDup_nil_2.
Defined.

Lemma usernames_unique_seed_store hashed st :
  usernames_unique st → usernames_unique (seed_store hashed st).
Proof.
  unfold usernames_unique, seed_store, ensure. cbn [users].
  intros Hnodup. destruct (head (filter (by_username "max") (users st))) eqn:Hmax;
    [exact Hnodup|].
  rewrite fmap_app. apply NoDup_app. split; [exact Hnodup|].
  split; [|apply NoDup_singleton].
  intros name Hname Hin. apply list_elem_of_singleton in Hin. cbn in Hin. subst name.
  exact (not_elem_of_usernames "max" (users st) Hmax Hname).
Qed.

Lemma run_op_users gen check o w :
  users (db (run_op gen check o w)) = users (db w)
  ∨ ∃ salt, o = op_init_db salt
            ∧ db (run_op gen check o w) = seed_store (gen salt "a") (db w).
Proof.
  destruct o as [salt|req| |req| | | |req]; cbn [run_op].
  - right. exists salt. split; [reflexivity | apply init_db_runs].
  - left. destruct (add_stock_world req w) as [->|(serial & _ & _ & ->)]; reflexivity.
  - left. destruct (index_world w) as [-> _]. reflexivity.
  - left. rewrite login_db. reflexivity.
  - left. reflexivity.
  - left. reflexivity.
  - left. destruct (view_notes_world w) as [-> _]. reflexivity.
  - left. destruct (add_note_world req w) as [->|(content & _ & _ & _ & ->)]; reflexivity.
Qed.

(** X7. Usernames stay unique. If no two users of the store have the
    same name, none do after any sequence of operations: the one insert
    into [users], in [init_db], follows a lookup that found no such name. *)
Theorem usernames_stay_unique
    (generate_password_hash : string → string → string)
    (check_password_hash : string → string → bool)
    (ops : list operation) (w : world) :
  usernames_unique (db w) →
  usernames_unique (db (run_ops generate_password_hash check_password_hash ops w)).
Proof.
  revert w. induction ops as [|o ops IH]; intros w Hunique; [exact Hunique|].
  unfold run_ops in *. cbn [foldl]. apply IH.
  destruct (run_op_users generate_password_hash check_password_hash o w)
    as [Hsame|(salt & _ & Hseed)].
  - unfold usernames_unique. rewrite Hsame. exact Hunique.
  - rewrite Hseed. apply usernames_unique_seed_store, Hunique.
Qed.

Lemma usernames_stay_unique_witness :
  usernames_unique
    (db (run_ops clear_hash clear_check
           [op_init_db "salt"; op_login (credentials "max" "a");
            op_init_db "pepper"; op_logout; op_init_db "thyme"]
           fresh)).
Proof.
  apply (usernames_stay_unique clear_hash clear_check).
  unfold usernames_unique. cbn. apply NoDup_nil_2.
Defined.

(** ** Users and locations after the first start *)

Lemma seeded_keys_seed_store hashed st : seeded_keys (seed_store hashed st).
Proof.
  unfold seeded_keys, seed_store. cbn [users locations].
  split; [apply present_ensure_mono, present_ensure; reflexivity|].
  split; apply present_ensure; reflexivity.
Qed.

Lemma seed_store_seeded_keys hashed st :
  seeded_keys st →
  users (seed_store hashed st) = users st
  ∧ locations (seed_store hashed st) = locations st.
Proof.
  unfold seeded_keys, seed_store. cbn [users locations]. intros (Htpa & Hclw & Hmax).
  split; [apply ensure_present, Hmax|].
  rewrite (ensure_present (by_office "TPA")) by exact Htpa.
  apply ensure_present, Hclw.
Qed.

Lemma run_op_seeded_keys gen check o w :
  seeded_keys (db w) →
  users (db (run_op gen check o w)) = users (db w)
  ∧ locations (db (run_op gen check o w)) = locations (db w).
Proof.
  intros Hkeys. destruct o as [salt|req| |req| | | |req]; cbn [run_op].
  - destruct (init_db_runs gen salt w) as (_ & -> & _).
    apply seed_store_seeded_keys, Hkeys.
  - destruct (add_stock_world req w) as [->|(serial & _ & _ & ->)]; auto.
  - destruct (index_world w) as [-> _]. auto.
  - rewrite login_db. auto.
  - auto.
  - auto.
  - destruct (view_notes_world w) as [-> _]. auto.
  - destruct (add_note_world req w) as [->|(content & _ & _ & _ & ->)]; auto.
Qed.

Lemma run_ops_seeded_keys gen check ops w :
  seeded_keys (db w) →
  users (db (run_ops gen check ops w)) = users (db w)
  ∧ locations (db (run_ops gen check ops w)) = locations (db w).
Proof.
  revert w. induction ops as [|o ops IH]; intros w Hkeys; [auto|].
  unfold run_ops in *. cbn [foldl].
  destruct (run_op_seeded_keys gen check o w Hkeys) as [Hu Hl].
  destruct (IH (run_op gen check o w)) as [Hu' Hl'].
  - unfold seeded_keys in *. rewrite Hu, Hl. exact Hkeys.
  - rewrite Hu', Hl'. auto.
Qed.

(** X8. Users and locations are made by [init_db] alone, and once. After
    the first start of the process no sequence of operations, later starts
    among them, changes the [users] table or the [locations] table. *)
Theorem users_locations_fixed_after_first_start
    (generate_password_hash : string → string → string)
    (check_password_hash : string → string → bool)
    (salt : string) (ops : list operation) (w : world) :
  users (db (run_ops generate_password_hash check_password_hash ops
               (restart generate_password_hash salt w)))
    = users (db (restart generate_password_hash salt w))
  ∧ locations (db (run_ops generate_password_hash check_password_hash ops
                     (restart generate_password_hash salt w)))
      = locations (db (restart generate_password_hash salt w)).
Proof.
  apply run_ops_seeded_keys. rewrite db_restart. apply seeded_keys_seed_store.
Qed.

(** ** References to locations *)

Lemma location_of_extends st st' v loc :
  locations st `prefix_of` locations st' →
  location_of st v = Some loc → location_of st' v = Some loc.
Proof.
  intros [more Hmore]. unfold location_of. rewrite Hmore.
  destruct (rowid_of v) as [i|]; [|discriminate].
  apply head_filter_app_Some.
Qed.

Lemma dangling_extends st st' s :
  locations st `prefix_of` locations st' →
  dangling st s = false → dangling st' s = false.
Proof.
  intros Hprefix. unfold dangling. destruct (Stock.location_id s) as [v|]; [|auto].
  destruct (location_of st v) as [loc|] eqn:Hloc; [|discriminate].
  rewrite (location_of_extends st st' v loc Hprefix Hloc). auto.
Qed.


(** The id of the first row found is the id of a row. *)
Lemma location_of_first_id (P : Z * Location.t → Prop) `{!∀ r, Decision (P r)} st :
  is_Some (head (filter P (locations st))) →
  is_Some (location_of st (Integer (first_id P (locations st)))).
Proof.
  intros [r Hr]. unfold location_of, first_id. rewrite Hr. cbn [rowid_of from_option].
  apply head_Some_elem_of, list_elem_of_filter in Hr as [_ Hin].
  destruct (filter (λ l : Z * Location.t, l.1 = r.1) (locations st)) as [|l ls] eqn:Hfilter;
    [|cbn; eauto].
  assert (Hr : r ∈ filter (λ l : Z * Location.t, l.1 = r.1) (locations st))
    by (apply list_elem_of_filter; auto).
  rewrite Hfilter in Hr. inversion Hr.
Qed.

Lemma Forall_ensure {A} (P : Z * A → Prop) `{!∀ r, Decision (P r)}
    (Q : Z * A → Prop) (x : A) (t : table A) :
  Forall Q t → Q (next_id t, x) → Forall Q (ensure P x t).
Proof.
  intros Hall Hnew. unfold ensure. destruct (head (filter P t)); [exact Hall|].
  apply Forall_app. auto.
Qed.

Lemma referential_integrity_seed_store hashed st :
  referential_integrity st → referential_integrity (seed_store hashed st).
Proof.
  intros Hall. unfold referential_integrity.
  set (st' := seed_store hashed st).
  assert (Hprefix : locations st `prefix_of` locations st') by apply seed_store_extends.
  assert (Hkeys : seeded_keys st') by apply seeded_keys_seed_store.
  destruct Hkeys as (Htpa & Hclw & _).
  assert (Hold : Forall (λ s : Z * Stock.t, dangling st' s.2 = false) (stock st)).
  { eapply Forall_impl; [exact Hall|]. intros s. apply dangling_extends, Hprefix. }
  assert (Hnew : ∀ (P : Z * Location.t → Prop) `{!∀ r, Decision (P r)} mk_row,
             is_Some (head (filter P (locations st'))) →
             (∀ i, Stock.location_id (mk_row i) = Some (Integer i)) →
             dangling st' (mk_row (first_id P (locations st'))) = false).
  { intros P HP mk_row Hpresent Hrow. unfold dangling. rewrite Hrow.
    destruct (location_of_first_id P st' Hpresent) as [loc ->]. reflexivity. }
  change (stock st') with
    (ensure (by_serial "1138") (stock_1138 (first_id (by_office "CLW") (locations st')))
       (ensure (by_serial "1137") (stock_1137 (first_id (by_office "TPA") (locations st')))
          (stock st))).
  apply Forall_ensure; [apply Forall_ensure; [exact Hold|]|].
  - apply (Hnew (by_office "TPA") _ stock_1137 Htpa). reflexivity.
  - apply (Hnew (by_office "CLW") _ stock_1138 Hclw). reflexivity.
Qed.

(** X9. [init_db] keeps references whole. If every stock row with a
    [location_id] refers to a location of the store before a start, every
    one does after it: the rows it adds carry the ids of the locations it
    found or made, and no location is removed. *)
Theorem init_db_keeps_references
    (generate_password_hash : string → string → string) (salt : string) (w : world) :
  referential_integrity (db w) →
  referential_integrity (db (init_db generate_password_hash salt w).2).
Proof.
  intros Hall. destruct (init_db_runs generate_password_hash salt w) as (_ & -> & _).
  apply referential_integrity_seed_store, Hall.
Qed.

Lemma init_db_keeps_references_witness :
  referential_integrity (db (init_db clear_hash "salt" fresh).2).
Proof.
  apply (init_db_keeps_references clear_hash "salt" fresh).
  unfold referential_integrity. cbn. constructor.
Defined.



(** ** Listing *)

Lemma index_authenticated w :
  truthy (session w !! "logged_in") = true →
  index w =
    (Ok (render_template "index.html"
           [("users", Users (users (db w))); ("stock", StockItems (joined (db w)));
            ("locations", Locations (locations (db w)))]),
     World (db w) (session w)
       (((db_log w ++ [Query "users"]) ++ [Query "stock"]) ++ [Query "locations"])).
Proof. intros Hin. run. rewrite Hin. reflexivity. Qed.

Lemma location_of_same_locations st st' v :
  locations st = locations st' → location_of st v = location_of st' v.
Proof. intros Heq. unfold location_of. rewrite Heq. reflexivity. Qed.

Lemma joined_snoc st i s :
  joined (Store (users st) (locations st) (stock st ++ [(i, s)]) (notes st))
  = joined st ++ [((i, s), Stock.location_id s ≫= location_of st)].
Proof. unfold joined. cbn [stock]. rewrite fmap_app. reflexivity. Qed.

(** X11. A stock row added with the id of a location is listed with that
    location. After a logged-in [add_stock] whose [location_id] is the
    decimal text of the id of a location of the store, [index] shows the
    rows it showed before and then the new row, paired with that location;
    users and locations are as before. *)
Theorem add_stock_then_index
    (req : request) (w : world) (serial txt : string) (i : Z) (loc : Z * Location.t) :
  truthy (session w !! "logged_in") = true →
  form req !! "serial" = Some serial →
  form req !! "location_id" = Some txt →
  integer_literal txt = Some i →
  head (filter (λ l : Z * Location.t, l.1 = i) (locations (db w))) = Some loc →
  (index (add_stock req w).2).1 =
    Ok (render_template "index.html"
          [("users", Users (users (db w)));
           ("stock", StockItems (joined (db w)
                       ++ [((next_id (stock (db w)), new_item req serial), Some loc)]));
           ("locations", Locations (locations (db w)))]).
Proof.
  intros Hin Hserial Htxt Hint Hloc.
  rewrite (add_stock_authenticated req w serial Hin Hserial). cbn [snd].
  rewrite index_authenticated by exact Hin. cbn [fst db users locations].
  rewrite joined_snoc.
  assert (Hnew : Stock.location_id (new_item req serial) ≫= location_of (db w) = Some loc).
  { unfold new_item, form_get. cbn [Stock.location_id]. rewrite Htxt. cbn.
    unfold location_of. cbn [rowid_of]. rewrite Hint. exact Hloc. }
  rewrite Hnew. reflexivity.
Qed.

Lemma add_stock_then_index_witness :
  let req := Request {["serial" := "9999"; "location_id" := "1"]} "" in
  let w := World seeded session_max [] in
  (index (add_stock req w).2).1 =
    Ok (render_template "index.html"
          [("users", Users (users (db w)));
           ("stock", StockItems (joined (db w)
                       ++ [((next_id (stock (db w)), new_item req "9999"),
                            Some (1, TPA_GAR_A))]));
           ("locations", Locations (locations (db w)))]).
Proof.
  intros req w.
  apply (add_stock_then_index req w "9999" "1" 1 (1, TPA_GAR_A)); reflexivity.
Defined.

(** X12. A logged-in [add_note] whose form has no [note_content], or an
    empty one, redirects to [/notes] and leaves the world as it is: no
    note is made and the store is not touched. *)
Theorem add_note_without_content (req : request) (w : world) :
  truthy (session w !! "logged_in") = true →
  form req !! "note_content" = None ∨ form req !! "note_content" = Some "" →
  add_note req w = (Ok (redirect "/notes"), w).
Proof. apply add_note_empty. Qed.

Lemma add_note_without_content_witness :
  let req := Request {["note_content" := ""]} "2025-01-01 10:00:00" in
  let w := World seeded session_max [] in
  add_note req w = (Ok (redirect "/notes"), w).
Proof.
  intros req w. apply (add_note_without_content req w); [reflexivity|].
  right. reflexivity.
Defined.

(** X13. [logout] closes the gate, whatever the session was. In the world
    it leaves the session is anonymous, and [add_stock], [index],
    [add_note] and [view_notes] change nothing and show no row. *)
Theorem logout_closes_gate (req : request) (w : world) :
  let w' := (logout w).2 in
  anonymous (session w')
  ∧ db w' = db w
  ∧ add_stock req w' = (Ok (redirect "/"), w')
  ∧ index w' = (Ok (render_template "login.html" []), w')
  ∧ add_note req w' = (Ok (redirect "/"), w')
  ∧ view_notes w' = (Ok (redirect "/"), w').
Proof.
  intros w'. assert (Hanon : anonymous (session w')) by exact anonymous_empty.
  split; [exact Hanon|]. split; [reflexivity|].
  rewrite add_stock_anonymous, index_anonymous, add_note_anonymous, view_notes_anonymous
    by exact Hanon.
  auto.
Qed.

(** X14. A login that verifies opens the gate. In the world it leaves the
    session is authenticated under the name given, [index] lists the users,
    the stock with its locations and the locations of the store, and
    [view_notes] lists its notes. *)
Theorem verified_login_opens_gate
    (check_password_hash : string → string → bool)
    (req : request) (w : world) (username password : string) (row : Z * User.t) :
  form req !! "username" = Some username →
  form req !! "password" = Some password →
  user_named username (db w) = Some row →
  check_password_hash (User.password_hash row.2) password = true →
  let w' := (login check_password_hash req w).2 in
  authenticated (session w') username
  ∧ (index w').1 =
      Ok (render_template "index.html"
            [("users", Users (users (db w))); ("stock", StockItems (joined (db w)));
             ("locations", Locations (locations (db w)))])
  ∧ (view_notes w').1 =
      Ok (render_template "notes.html" [("notes", Notes (order_by_id_desc (notes (db w))))]).
Proof.
  intros Hu Hp Hrow Hcheck w'.
  assert (Hw' : w' = World (db w)
                       (<["username" := PyStr username]>
                          (<["logged_in" := PyBool true]> (session w)))
                       (db_log w ++ [Query "users"])).
  { unfold w'. rewrite (login_verified check_password_hash req w username password row
                          Hu Hp Hrow Hcheck).
    rewrite (user_named_username check_password_hash username (db w) row Hrow).
    reflexivity. }
  assert (Hin : truthy (session w' !! "logged_in") = true).
  { rewrite Hw'. cbn [session]. rewrite lookup_insert_ne by discriminate.
    rewrite lookup_insert_eq. reflexivity. }
  split; [split; [exact Hin|]|].
  - rewrite Hw'. apply lookup_insert_eq.
  - rewrite (index_authenticated w' Hin), (view_notes_authenticated w' Hin).
    rewrite Hw'. auto.
Qed.

Lemma verified_login_opens_gate_witness :
  let w := World seeded ∅ [] in
  let w' := (login clear_check (credentials "max" "a") w).2 in
  authenticated (session w') "max"
  ∧ (index w').1 =
      Ok (render_template "index.html"
            [("users", Users (users (db w))); ("stock", StockItems (joined (db w)));
             ("locations", Locations (locations (db w)))])
  ∧ (view_notes w').1 =
      Ok (render_template "notes.html" [("notes", Notes (order_by_id_desc (notes (db w))))]).
Proof.
  intros w.
  apply (verified_login_opens_gate clear_check (credentials "max" "a") w
           "max" "a" (1, User.mk "max" "salt$a")); reflexivity.
Defined.

(** ** Starting again *)

(** X15. A start on a store that has the five records writes nothing.
    When [init_db] finds a location for TPA and for CLW, the user max and
    stock rows of serial 1137 and 1138, it returns with the store and the
    session as they were, having made its five queries and committed a
    session with nothing pending: no insert is attempted. *)
Theorem init_db_on_seeded_store
    (generate_password_hash : string → string → string) (salt : string) (w : world) :
  seeded_keys (db w) →
  is_Some (head (filter (by_serial "1137") (stock (db w)))) →
  is_Some (head (filter (by_serial "1138") (stock (db w)))) →
  init_db generate_password_hash salt w =
    (Ok (),
     World (db w) (session w)
       (db_log w ++ [Query "locations"; Query "locations"; Query "users";
                     Query "stock"; Query "stock"; Commit []])).
Proof.
  destruct w as [[us ls ss ns] sess lg]. unfold seeded_keys. cbn [db users locations stock].
  intros ([tpa Htpa] & [clw Hclw] & [max Hmax]) [s1 H1137] [s2 H1138].
  cbv [init_db query_first query_all add_commit commit rollback log
       except_IntegrityError try_except raise mbind M_bind mret M_ret].
  cbn [db session db_log users locations stock notes].
  rewrite Htpa. cbn [db session db_log users locations stock notes].
  rewrite Hclw. cbn [db session db_log users locations stock notes].
  rewrite Hmax, H1137, H1138. cbn [flush].
  rewrite <- !app_assoc. reflexivity.
Qed.

Lemma init_db_on_seeded_store_witness :
  let w := World seeded session_max [] in
  init_db clear_hash "pepper" w =
    (Ok (),
     World (db w) (session w)
       (db_log w ++ [Query "locations"; Query "locations"; Query "users";
                     Query "stock"; Query "stock"; Commit []])).
Proof.
  intros w. apply (init_db_on_seeded_store clear_hash "pepper" w).
  - unfold seeded_keys. repeat split; vm_compute; eexists; reflexivity.
  - vm_compute. eexists. reflexivity.
  - vm_compute. eexists. reflexivity.
Defined.

Lemma ensure_absent {A} (P : Z * A → Prop) `{!∀ r, Decision (P r)} (x : A) (t : table A) :
  head (filter P t) = None → ensure P x t = t ++ [(next_id t, x)].
Proof. intros Hnone. unfold ensure. rewrite Hnone. reflexivity. Qed.

(** A row found by its id in a table without repeated ids. *)
Lemma head_filter_id {A} (t : table A) (r : Z * A) :
  NoDup t.*1 → r ∈ t → head (filter (λ l : Z * A, l.1 = r.1) t) = Some r.
Proof.
  induction t as [|y t IH]; intros Hnodup Hin; [inversion Hin|].
  rewrite fmap_cons in Hnodup. apply NoDup_cons in Hnodup as [Hy Hnodup].
  destruct (decide (y.1 = r.1)) as [Heq|Hne].
  - rewrite filter_cons_True by exact Heq. cbn. f_equal.
    apply elem_of_cons in Hin as [->|Hin]; [reflexivity|].
    exfalso. apply Hy. rewrite Heq. apply list_elem_of_fmap. eauto.
  - rewrite filter_cons_False by exact Hne.
    apply elem_of_cons in Hin as [->|Hin]; [contradiction|].
    apply IH; assumption.
Qed.

Lemma head_filter_first_id {A} (P : Z * A → Prop) `{!∀ r, Decision (P r)} (t : table A) :
  NoDup t.*1 →
  is_Some (head (filter P t)) →
  ∃ r, P r ∧ r.1 = first_id P t
       ∧ head (filter (λ l : Z * A, l.1 = first_id P t) t) = Some r.
Proof.
  intros Hnodup [r Hr]. exists r. unfold first_id. rewrite Hr. cbn [from_option].
  apply head_Some_elem_of, list_elem_of_filter in Hr as [HP Hin].
  split; [exact HP|]. split; [reflexivity|]. apply head_filter_id; assumption.
Qed.

(** X16. The seeded stock is placed. On a store whose location ids are
    unique and that has no stock row of serial 1137 or 1138, a start
    appends the two rows, and their [location_id]s are the ids of a
    location of office TPA for 1137 and of office CLW for 1138, which is
    what the join of [index] finds for them. *)
Theorem seeded_stock_is_placed
    (generate_password_hash : string → string → string) (salt : string) (w : world) :
  NoDup (locations (db w)).*1 →
  count_serial "1137" (db w) = 0%nat →
  count_serial "1138" (db w) = 0%nat →
  let st' := db (restart generate_password_hash salt w) in
  ∃ tpa clw,
    stock st' = stock (db w)
                  ++ [(next_id (stock (db w)), stock_1137 tpa.1);
                      (next_id (stock (db w)) + 1, stock_1138 clw.1)]
    ∧ location_of st' (Integer tpa.1) = Some tpa
    ∧ Location.office tpa.2 = Some "TPA"
    ∧ location_of st' (Integer clw.1) = Some clw
    ∧ Location.office clw.2 = Some "CLW".
Proof.
  intros Hnodup H1137 H1138 st'.
  assert (Hst' : st' = seed_store (generate_password_hash salt "a") (db w))
    by apply db_restart.
  assert (Hkeys : seeded_keys st') by (rewrite Hst'; apply seeded_keys_seed_store).
  destruct Hkeys as (Htpa & Hclw & _).
  assert (Hnodup' : NoDup (locations st').*1).
  { rewrite Hst'. unfold seed_store. cbn [locations].
    apply NoDup_ensure, (NoDup_ensure (by_office "TPA")), Hnodup. }
  destruct (head_filter_first_id (by_office "TPA") _ Hnodup' Htpa)
    as (tpa & Htpa_office & Htpa_id & Htpa_row).
  destruct (head_filter_first_id (by_office "CLW") _ Hnodup' Hclw)
    as (clw & Hclw_office & Hclw_id & Hclw_row).
  exists tpa, clw.
  assert (Hnone : ∀ serial, count_serial serial (db w) = 0%nat →
                    head (filter (by_serial serial) (stock (db w))) = None).
  { unfold count_serial. intros serial Hcount.
    destruct (filter _ (stock (db w))); [reflexivity | discriminate]. }
  split.
  - rewrite Htpa_id, Hclw_id, Hst'. unfold seed_store. cbn [stock locations].
    rewrite (ensure_absent (by_serial "1137")) by exact (Hnone "1137" H1137).
    rewrite (ensure_absent (by_serial "1138"))
      by (rewrite (filter_snoc_other (by_serial "1138")) by (intros Heq; discriminate Heq);
          exact (Hnone "1138" H1138)).
    rewrite next_id_snoc, <- app_assoc. reflexivity.
  - unfold location_of. cbn [rowid_of].
    split; [rewrite Htpa_id; exact Htpa_row|]. split; [exact Htpa_office|].
    split; [rewrite Hclw_id; exact Hclw_row | exact Hclw_office].
Qed.

Lemma seeded_stock_is_placed_witness :
  let st' := db (restart clear_hash "salt" fresh) in
  ∃ tpa clw,
    stock st' = stock (db fresh)
                  ++ [(next_id (stock (db fresh)), stock_1137 tpa.1);
                      (next_id (stock (db fresh)) + 1, stock_1138 clw.1)]
    ∧ location_of st' (Integer tpa.1) = Some tpa
    ∧ Location.office tpa.2 = Some "TPA"
    ∧ location_of st' (Integer clw.1) = Some clw
    ∧ Location.office clw.2 = Some "CLW".
Proof.
  apply (seeded_stock_is_placed clear_hash "salt" fresh); try reflexivity.
  cbn. apply NoDup_nil_2.
Defined.

(** X17. Each writing route writes one table. On every request and in
    every session [add_stock] leaves the users, the locations and the notes
    as they were, and [add_note] the users, the locations and the stock. *)
Theorem writers_touch_one_table (req : request) (w : world) :
  (users (db (add_stock req w).2) = users (db w)
   ∧ locations (db (add_stock req w).2) = locations (db w)
   ∧ notes (db (add_stock req w).2) = notes (db w))
  ∧ (users (db (add_note req w).2) = users (db w)
     ∧ locations (db (add_note req w).2) = locations (db w)
     ∧ stock (db (add_note req w).2) = stock (db w)).
Proof.
  split.
  - destruct (add_stock_world req w) as [->|(serial & _ & _ & ->)]; auto.
  - destruct (add_note_world req w) as [->|(content & _ & _ & _ & ->)]; auto.
Qed.
